(** * nanocode: a shallow embedding of [nanocode.py] and its specification

    The development follows the source file top to bottom:

    - [PyStr]: the built-in string operations the tools rely on
      ([in], [str.count], [str.replace], [str.join], [str.strip],
      [readlines], integer formatting);
    - [Py]: Python values as they come out of [json.loads], exceptions and
      the outcome of a call;
    - [Host]: the file system, the clock and the collaborators the program
      reaches through the standard library ([glob], [re], [json],
      [subprocess], the remote service);
    - [Tools]: [read], [write], [edit], [glob], [grep], [bash], the table
      [TOOLS] and [run_tool];
    - [Agent]: [call_api], [normalize_tool_args], [handle_outputs] and the
      inner loop of [main];
    - [Sample]: one host small enough to compute with; [Obs] and [Cases]:
      the observations and the inputs the statements use;
    - [Dotenv]: [load_dotenv]; [Repl]: the preview of a result and the
      prompt loop of [main].

    The properties come after the definitions: strings, [edit], sorting
    and [glob], [grep], [run_tool], argument normalization, the agent
    loop, [bash], [read].

    Terminal output ([print]) is not part of any statement below and is left
    out of the state. *)

From Stdlib Require Import ZArith Ascii String List Lia DecimalString Floats Sorted Permutation.
From stdpp Require Import base gmap strings list.

(** ** Python strings

    A character of the model stands for a code point below 256; text
    with other characters is outside the model. *)

Module PyStr.

Definition LF : ascii := "010"%char.
Definition CR : ascii := "013"%char.
Definition DQ : ascii := "034"%char.
Definition nl : string := String LF EmptyString.

(** [s.startswith(p)] *)
Fixpoint startswith (s p : string) : bool :=
  match p, s with
  | EmptyString, _ => true
  | String _ _, EmptyString => false
  | String a p', String b s' => Ascii.eqb a b && startswith s' p'
  end.

(** [old in s] *)
Fixpoint contains (s old : string) : bool :=
  startswith s old ||
  match s with
  | EmptyString => false
  | String _ s' => contains s' old
  end.

(** [s[k:]] for [k >= 0] *)
Fixpoint sdrop (k : nat) (s : string) : string :=
  match k, s with
  | S k', String _ s' => sdrop k' s'
  | _, _ => s
  end.

(** [s.count(old)] scans left to right and counts occurrences that do not
    overlap.  [skip] is the number of characters of the last match that
    are still to be stepped over. *)
Fixpoint count_from (skip : nat) (s old : string) : nat :=
  match s with
  | EmptyString => 0
  | String _ s' =>
      match skip with
      | S k => count_from k s' old
      | O =>
          if startswith s old
          then S (count_from (String.length old - 1) s' old)
          else count_from 0 s' old
      end
  end.

(** The empty pattern is found between any two characters and at both
    ends. *)
Definition count (s old : string) : nat :=
  match old with
  | EmptyString => S (String.length s)
  | String _ _ => count_from 0 s old
  end.

(** The optional third argument of [str.replace]: [None] stands for the
    default (no bound), [Some n] for at most [n] replacements. *)
Definition spent (limit : option nat) : bool :=
  match limit with
  | Some O => true
  | _ => false
  end.

Definition used (limit : option nat) : option nat :=
  match limit with
  | Some (S n) => Some n
  | l => l
  end.

Fixpoint replace_from (skip : nat) (limit : option nat) (s old new : string)
  : string :=
  match s with
  | EmptyString => EmptyString
  | String c s' =>
      match skip with
      | S k => replace_from k limit s' old new
      | O =>
          if negb (spent limit) && startswith s old
          then new +:+ replace_from (String.length old - 1) (used limit) s' old new
          else String c (replace_from 0 limit s' old new)
      end
  end.

(** Replacing the empty pattern puts [new] in front of every character and
    at the end. *)
Fixpoint interleave (limit : option nat) (s new : string) : string :=
  if spent limit then s
  else
    match s with
    | EmptyString => new
    | String c s' => new +:+ String c (interleave (used limit) s' new)
    end.

(** [s.replace(old, new)] and [s.replace(old, new, n)] *)
Definition replace (s old new : string) (limit : option nat) : string :=
  match old with
  | EmptyString => interleave limit s new
  | String _ _ => replace_from 0 limit s old new
  end.

(** [sep.join(l)] *)
Fixpoint join (sep : string) (l : list string) : string :=
  match l with
  | [] => EmptyString
  | [x] => x
  | x :: xs => x +:+ sep +:+ join sep xs
  end.

(** [str(n)] for an integer, and the format [f"{n:4}"]: at least four
    characters, padded with spaces on the left. *)
Definition str_of_Z (z : Z) : string := NilZero.string_of_int (Z.to_int z).

Fixpoint spaces (n : nat) : string :=
  match n with
  | O => EmptyString
  | S n' => String " "%char (spaces n')
  end.

Definition rjust (width : nat) (s : string) : string :=
  spaces (width - String.length s) +:+ s.

Definition fmt4 (z : Z) : string := rjust 4 (str_of_Z z).

(** The characters [str.strip] removes when called without argument,
    among the code points below 256 that a character of the model stands
    for: space, tab, line feed, vertical tab, form feed, carriage
    return, the four separators 28 to 31, next line (133) and the
    no-break space (160). *)
Definition isspace (c : ascii) : bool :=
  let n := N_of_ascii c in
  (N.eqb n 32 || (N.leb 9 n && N.leb n 13) || (N.leb 28 n && N.leb n 31)
   || N.eqb n 133 || N.eqb n 160)%N.

Fixpoint lstrip (s : string) : string :=
  match s with
  | EmptyString => EmptyString
  | String c s' => if isspace c then lstrip s' else s
  end.

Fixpoint rstrip (s : string) : string :=
  match s with
  | EmptyString => EmptyString
  | String c s' =>
      match rstrip s' with
      | EmptyString => if isspace c then EmptyString else String c EmptyString
      | r => String c r
      end
  end.

Definition strip (s : string) : string := lstrip (rstrip s).

(** Text mode with the default [newline=None]: on input, a carriage
    return, alone or followed by a line feed, is read as one line feed.
    [after_cr] remembers that the previous character was a carriage
    return. *)
Fixpoint universal_newlines_from (after_cr : bool) (raw : string) : string :=
  match raw with
  | EmptyString => EmptyString
  | String c raw' =>
      if Ascii.eqb c CR then String LF (universal_newlines_from true raw')
      else if Ascii.eqb c LF && after_cr then universal_newlines_from false raw'
      else String c (universal_newlines_from false raw')
  end.

Definition universal_newlines (raw : string) : string :=
  universal_newlines_from false raw.

(** [f.readlines()]: the text cut after every line feed, the line feed
    kept; a last line without line feed is a line too. *)
Fixpoint readlines_from (cur : string) (text : string) : list string :=
  match text with
  | EmptyString =>
      match cur with
      | EmptyString => []
      | _ => [cur]
      end
  | String c text' =>
      if Ascii.eqb c LF
      then (cur +:+ nl) :: readlines_from EmptyString text'
      else readlines_from (cur +:+ String c EmptyString) text'
  end.

Definition readlines (text : string) : list string :=
  readlines_from EmptyString text.

(** [s.rstrip(c)] for a single character [c], and [s.endswith(c)] *)
Fixpoint rstrip_char (ch : ascii) (s : string) : string :=
  match s with
  | EmptyString => EmptyString
  | String c s' =>
      match rstrip_char ch s' with
      | EmptyString => if Ascii.eqb c ch then EmptyString else String c EmptyString
      | r => String c r
      end
  end.

Fixpoint endswith_char (s : string) (ch : ascii) : bool :=
  match s with
  | EmptyString => false
  | String c EmptyString => Ascii.eqb c ch
  | String _ s' => endswith_char s' ch
  end.

(** [s] without a carriage return at its end *)
Fixpoint hold_cr (s : string) : string :=
  match s with
  | EmptyString => EmptyString
  | String c EmptyString => if Ascii.eqb c CR then EmptyString else s
  | String c s' => String c (hold_cr s')
  end.

(** The lines a text reader hands out of [raw] while more of the file
    is to come: a line is handed out once its line feed is there, so a
    last line without one waits, and a carriage return at the very end
    waits too, because it may be half of a line ending. *)
Definition whole_lines (raw : string) : list string :=
  List.filter (fun line => endswith_char line LF)
    (readlines (universal_newlines (hold_cr raw))).

(** [x or y] on strings *)
Definition str_or (x y : string) : string :=
  match x with
  | EmptyString => y
  | _ => x
  end.

End PyStr.

Import PyStr.

(** ** Python values, exceptions, outcomes *)

Module Py.

(** What [json.loads] produces, which is also what [json.dumps] accepts:
    the program handles no other values.  A dictionary keeps its keys in
    insertion order. *)
#[warnings="-register-all"]
Inductive value : Type :=
| PNone
| PBool (b : bool)
| PInt (z : Z)
| PFloat (f : float)
| PStr (s : string)
| PList (l : list value)
| PDict (d : list (string * value)).

(** [type(v).__name__] *)
Definition type_name (v : value) : string :=
  match v with
  | PNone => "NoneType"
  | PBool _ => "bool"
  | PInt _ => "int"
  | PFloat _ => "float"
  | PStr _ => "str"
  | PList _ => "list"
  | PDict _ => "dict"
  end.

(** [bool(v)] *)
Definition truthy (v : value) : bool :=
  match v with
  | PNone => false
  | PBool b => b
  | PInt z => negb (Z.eqb z 0)
  | PFloat f => negb (PrimFloat.is_zero f)
  | PStr s => negb (String.eqb s EmptyString)
  | PList l => match l with [] => false | _ => true end
  | PDict d => match d with [] => false | _ => true end
  end.

Definition is_dict (v : value) : bool :=
  match v with
  | PDict _ => true
  | _ => false
  end.

Fixpoint lookup (d : list (string * value)) (k : string) : option value :=
  match d with
  | [] => None
  | (k', v) :: d' => if String.eqb k' k then Some v else lookup d' k
  end.

(** [d[k] = v]: an existing key keeps its place *)
Fixpoint store (d : list (string * value)) (k : string) (v : value)
  : list (string * value) :=
  match d with
  | [] => [(k, v)]
  | (k', v') :: d' =>
      if String.eqb k' k then (k, v) :: d' else (k', v') :: store d' k v
  end.

(** The exception classes the program can meet, and the part of the class
    hierarchy its [except] clauses look at. *)
Inductive exn_class : Type :=
| BaseException
| KeyboardInterrupt
| Exception_
| KeyError
| TypeError
| AttributeError
| ValueError
| JSONDecodeError
| UnicodeDecodeError
| RuntimeError
| OSError
| FileNotFoundError
| IsADirectoryError
| PermissionError
| URLError
| re_error
| TimeoutExpired.

Definition exn_class_eqb (c d : exn_class) : bool :=
  match c, d with
  | BaseException, BaseException
  | KeyboardInterrupt, KeyboardInterrupt
  | Exception_, Exception_
  | KeyError, KeyError
  | TypeError, TypeError
  | AttributeError, AttributeError
  | ValueError, ValueError
  | JSONDecodeError, JSONDecodeError
  | UnicodeDecodeError, UnicodeDecodeError
  | RuntimeError, RuntimeError
  | OSError, OSError
  | FileNotFoundError, FileNotFoundError
  | IsADirectoryError, IsADirectoryError
  | PermissionError, PermissionError
  | URLError, URLError
  | re_error, re_error
  | TimeoutExpired, TimeoutExpired => true
  | _, _ => false
  end.

(** The direct base class; [BaseException] is the root. *)
Definition base_class (c : exn_class) : exn_class :=
  match c with
  | BaseException | KeyboardInterrupt | Exception_ => BaseException
  | JSONDecodeError | UnicodeDecodeError => ValueError
  | FileNotFoundError | IsADirectoryError | PermissionError | URLError => OSError
  | _ => Exception_
  end.

(** [issubclass(c, d)]; the hierarchy is four levels deep. *)
Definition issubclass (c d : exn_class) : bool :=
  exn_class_eqb c d
  || exn_class_eqb (base_class c) d
  || exn_class_eqb (base_class (base_class c)) d
  || exn_class_eqb (base_class (base_class (base_class c))) d.

(** An exception object: its class and [str(err)]. *)
Record exn : Type := mk_exn { exn_cls : exn_class; exn_str : string }.

(** How a call ends: it returns, it raises, or it does not come back
    (it blocks for ever, or the fuel of a loop ran out). *)
Inductive outcome (A : Type) : Type :=
| Return (a : A)
| Raise (e : exn)
| Hang.

Arguments Return {A} a.
Arguments Raise {A} e.
Arguments Hang {A}.

Definition raise_ {A} (c : exn_class) (msg : string) : outcome A :=
  Raise (mk_exn c msg).

(** [repr(s)] of a string, for the ASCII characters: quotes chosen as
    Python chooses them, the usual escapes.  It only feeds the text of
    [KeyError] messages. *)
Definition hex_digit (n : N) : ascii :=
  ascii_of_N (if (n <? 10)%N then 48 + n else 87 + n).

Fixpoint repr_body (q : ascii) (s : string) : string :=
  match s with
  | EmptyString => EmptyString
  | String c s' =>
      let n := N_of_ascii c in
      (if Ascii.eqb c "\"%char then "\\"
       else if Ascii.eqb c q then String "\"%char (String q EmptyString)
       else if Ascii.eqb c LF then "\n"
       else if Ascii.eqb c CR then "\r"
       else if Ascii.eqb c "009"%char then "\t"
       else if ((n <? 32) || (n =? 127))%N
            then "\x" +:+ String (hex_digit (n / 16)) (String (hex_digit (n mod 16)) EmptyString)
       else String c EmptyString) +:+ repr_body q s'
  end.

Definition repr_str (s : string) : string :=
  let q : ascii :=
    if contains s "'" && negb (contains s (String DQ EmptyString))
    then DQ else "'"%char in
  String q (repr_body q s) +:+ String q EmptyString.

End Py.

Import Py.

(** ** The host: file system, clock, child processes, remote service *)

Module Host.

(** A regular file: the characters stored, the modification time, whether
    the process may read and write it, and whether its bytes decode in the
    locale's encoding.  A text reader decodes a file chunk by chunk, and
    fails at the first chunk that does not decode: for a file that does
    not decode, [f_data] is the characters of the chunks before that
    one, which is all a reader ever gets of it. *)
Record file : Type := mk_file {
  f_data : string;
  f_mtime : Z;
  f_readable : bool;
  f_writable : bool;
  f_text : bool
}.

Inductive node : Type :=
| File (f : file)
| Dir.

(** A child process as the parent sees it, with times in milliseconds
    since it was started: the lines [readline] will deliver and when, when
    its end of the pipe is closed (never, for [None]), when it exits and
    with which status (never, for [None]), and what it does to the file
    system. *)
Record child : Type := mk_child {
  ch_lines : list (Z * string);
  ch_eof : option Z;
  ch_exit : option (Z * Z);
  ch_effect : gmap string node -> gmap string node
}.

(** The state the program runs in: the file system, the clock, and the
    bodies of the requests sent to the remote service, oldest first. *)
Record world : Type := mk_world {
  fs : gmap string node;
  now : Z;
  sent : list value
}.

(** What the program reaches through the standard library and the
    operating system. *)
Class host : Type := {
  (** [re.compile] (raises [re.error]) and [Pattern.search] *)
  regex : Type;
  re_compile : string -> outcome regex;
  re_search : regex -> string -> bool;
  (** [glob.glob(pattern, recursive=True)] *)
  glob_glob : gmap string node -> string -> list string;
  (** [json.loads] (raises [json.JSONDecodeError]) *)
  json_loads : string -> outcome value;
  (** [subprocess.Popen(cmd, shell=True, stdout=PIPE, stderr=STDOUT, text=True)] *)
  popen : value -> world -> outcome child;
  (** whether [open(path, "w")] may create [path] *)
  creatable : gmap string node -> string -> bool;
  (** [open(fd)] and [open(fd, "w")] on an integer: a file descriptor *)
  fd_read : Z -> outcome string;
  fd_write : Z -> string -> outcome unit;
  (** the remote service: the body of its answer to the last request of
      the history given *)
  urlopen : list value -> outcome string;
  (** configuration read when the module is loaded *)
  MODEL : string;
  GEMINI_API_KEY : string;
  getcwd : string
}.

(** Computations on the world *)
Definition M (A : Type) : Type := world -> outcome A * world.

Definition ret {A} (a : A) : M A := fun w => (Return a, w).

Definition bind {A B} (c : M A) (k : A -> M B) : M B :=
  fun w =>
    match c w with
    | (Return a, w') => k a w'
    | (Raise e, w') => (Raise e, w')
    | (Hang, w') => (Hang, w')
    end.

Definition lift {A} (o : outcome A) : M A := fun w => (o, w).

Definition raise {A} (c : exn_class) (msg : string) : M A :=
  lift (raise_ c msg).

(** [try: body except cls as err: handler(err)] *)
Definition try_except {A} (body : M A) (cls : exn_class) (handler : exn -> M A)
  : M A :=
  fun w =>
    match body w with
    | (Raise e, w') =>
        if issubclass (exn_cls e) cls then handler e w' else (Raise e, w')
    | r => r
    end.

End Host.

Import Host.

Declare Scope py_scope.
Delimit Scope py_scope with py.
Notation "'let*' x ':=' c 'in' k" := (bind c (fun x => k))
  (at level 10, x pattern, c at level 100, k at level 200) : py_scope.
Open Scope py_scope.

(** ** Tool implementations *)

Module Tools.

Section WithHost.
Context {H : host}.

(** [args[key]] *)
Definition getitem (args : value) (key : string) : outcome value :=
  match args with
  | PDict d =>
      match lookup d key with
      | Some v => Return v
      | None => raise_ KeyError (repr_str key)
      end
  | PList _ => raise_ TypeError "list indices must be integers or slices, not str"
  | PStr _ => raise_ TypeError "string indices must be integers, not 'str'"
  | v => raise_ TypeError ("'" +:+ type_name v +:+ "' object is not subscriptable")
  end.

(** [args.get(key, default)] *)
Definition get (args : value) (key : string) (default : value) : outcome value :=
  match args with
  | PDict d =>
      match lookup d key with
      | Some v => Return v
      | None => Return default
      end
  | v => raise_ AttributeError
           ("'" +:+ type_name v +:+ "' object has no attribute 'get'")
  end.

(** A value used where the interpreter wants a string. *)
Definition as_str (v : value) : outcome string :=
  match v with
  | PStr s => Return s
  | v => raise_ TypeError ("expected str, got " +:+ type_name v)
  end.

(** A value used as an integer ([bool] is a subclass of [int]). *)
Definition as_int (v : value) : option Z :=
  match v with
  | PInt z => Some z
  | PBool b => Some (if b then 1 else 0)%Z
  | _ => None
  end.

Definition as_index (v : value) : outcome Z :=
  match as_int v with
  | Some z => Return z
  | None => raise_ TypeError "slice indices must be integers"
  end.

(** [l[a:b]] *)
Definition clamp (n i : Z) : Z :=
  if (i <? 0)%Z then Z.max (i + n) 0 else Z.min i n.

Definition slice {A} (l : list A) (a b : Z) : list A :=
  let n := Z.of_nat (length l) in
  let lo := clamp n a in
  let hi := clamp n b in
  take (Z.to_nat (hi - lo)) (drop (Z.to_nat lo) l).

(** [enumerate(l, start)] *)
Fixpoint enumerate {A} (start : Z) (l : list A) : list (Z * A) :=
  match l with
  | [] => []
  | x :: l' => (start, x) :: enumerate (start + 1) l'
  end.

(** [open(path).read()], text mode *)
Definition open_read (path : value) : M string :=
  fun w =>
    match path with
    | PStr p =>
        match fs w !! p with
        | Some (File f) =>
            if negb (f_readable f)
            then (raise_ PermissionError ("[Errno 13] Permission denied: " +:+ repr_str p), w)
            else if negb (f_text f)
            then (raise_ UnicodeDecodeError "invalid start byte", w)
            else (Return (universal_newlines (f_data f)), w)
        | Some Dir =>
            (raise_ IsADirectoryError ("[Errno 21] Is a directory: " +:+ repr_str p), w)
        | None =>
            (raise_ FileNotFoundError
               ("[Errno 2] No such file or directory: " +:+ repr_str p), w)
        end
    | v =>
        match as_int v with
        | Some fd => (fd_read fd, w)
        | None => (raise_ TypeError "expected str, bytes or os.PathLike object", w)
        end
    end.

(** The two halves of [with open(path, "w") as f: f.write(content)] on a
    host where the line separator is the line feed, so that the text is
    stored as it is.  Opening creates the file or empties it; an empty
    file decodes, and so does the text written to it. *)
Inductive handle : Type :=
| OnPath (p : string)
| OnFd (fd : Z).

Definition open_write (path : value) : M handle :=
  fun w =>
    match path with
    | PStr p =>
        match fs w !! p with
        | Some (File f) =>
            if f_writable f
            then (Return (OnPath p),
                  mk_world
                    (<[p := File (mk_file EmptyString (now w) (f_readable f) true true)]> (fs w))
                    (now w) (sent w))
            else (raise_ PermissionError ("[Errno 13] Permission denied: " +:+ repr_str p), w)
        | Some Dir =>
            (raise_ IsADirectoryError ("[Errno 21] Is a directory: " +:+ repr_str p), w)
        | None =>
            if creatable (fs w) p
            then (Return (OnPath p),
                  mk_world (<[p := File (mk_file EmptyString (now w) true true true)]> (fs w))
                    (now w) (sent w))
            else (raise_ FileNotFoundError
                    ("[Errno 2] No such file or directory: " +:+ repr_str p), w)
        end
    | v =>
        match as_int v with
        | Some fd => (Return (OnFd fd), w)
        | None => (raise_ TypeError "expected str, bytes or os.PathLike object", w)
        end
    end.

Definition file_write (f : handle) (content : value) : M unit :=
  fun w =>
    match as_str content with
    | Return s =>
        match f with
        | OnPath p =>
            match fs w !! p with
            | Some (File old) =>
                (Return tt,
                 mk_world
                   (<[p := File (mk_file s (now w) (f_readable old) (f_writable old) (f_text old))]> (fs w))
                   (now w) (sent w))
            | _ => (raise_ OSError "[Errno 9] Bad file descriptor", w)
            end
        | OnFd fd => (match fd_write fd s with
                      | Return _ => Return tt
                      | Raise e => Raise e
                      | Hang => Hang
                      end, w)
        end
    | Raise e => (Raise e, w)
    | Hang => (Hang, w)
    end.

(** [read] *)
Definition read (args : value) : M string :=
  let* path := lift (getitem args "path") in
  let* text := open_read path in
  let lines := readlines text in
  let* offset_v := lift (get args "offset" (PInt 0)) in
  let* limit_v := lift (get args "limit" (PInt (Z.of_nat (length lines)))) in
  let* offset := lift (as_index offset_v) in
  let* limit := lift (as_index limit_v) in
  let selected := slice lines offset (offset + limit) in
  ret (join EmptyString
         (map (fun '(idx, line) => fmt4 (offset + idx + 1) +:+ "| " +:+ line)
              (enumerate 0 selected))).

(** [write] *)
Definition write (args : value) : M string :=
  let* path := lift (getitem args "path") in
  let* f := open_write path in
  let* content := lift (getitem args "content") in
  let* _ := file_write f content in
  ret "ok".

(** [edit] *)
Definition edit (args : value) : M string :=
  let* path := lift (getitem args "path") in
  let* text := open_read path in
  let* old_v := lift (getitem args "old") in
  let* new_v := lift (getitem args "new") in
  let* old := lift (as_str old_v) in
  if negb (contains text old) then ret "error: old_string not found"
  else
    let count := PyStr.count text old in
    let* all := lift (get args "all" PNone) in
    if negb (truthy all) && (1 <? count)
    then ret ("error: old_string appears " +:+ str_of_Z (Z.of_nat count)
              +:+ " times, must be unique (use all=true)")
    else
      let* new := lift (as_str new_v) in
      let replacement :=
        if truthy all then replace text old new None
        else replace text old new (Some 1) in
      let* f := open_write path in
      let* _ := file_write f (PStr replacement) in
      ret "ok".

(** [sorted(l, key=key, reverse=True)]: descending, and stable (entries
    with equal keys keep their order). *)
Fixpoint insert_desc {A} (key : A -> Z) (x : A) (l : list A) : list A :=
  match l with
  | [] => [x]
  | y :: l' =>
      if (key x <? key y)%Z then y :: insert_desc key x l' else x :: l
  end.

Fixpoint sorted_desc {A} (key : A -> Z) (l : list A) : list A :=
  match l with
  | [] => []
  | x :: l' => insert_desc key x (sorted_desc key l')
  end.

(** [os.path.getmtime(f) if os.path.isfile(f) else 0] *)
Definition mtime_key (fsys : gmap string node) (f : string) : Z :=
  match fsys !! f with
  | Some (File x) => f_mtime x
  | _ => 0%Z
  end.

(** [glob] *)
Definition glob (args : value) : M string :=
  let* path_v := lift (get args "path" (PStr ".")) in
  let* path := lift (as_str path_v) in
  let* pat_v := lift (getitem args "pat") in
  let* pat := lift (as_str pat_v) in
  let pattern := replace (path +:+ "/" +:+ pat) "//" "/" None in
  fun w =>
    let files := glob_glob (fs w) pattern in
    let files := sorted_desc (mtime_key (fs w)) files in
    (Return (str_or (join nl files) "none"), w).

(** [for line in open(path)]: the lines the body of the loop is run on,
    and how the loop ends.  The lines of a file that decodes are those
    of [readlines]; of a file that does not, the body sees the lines
    handed out before the reader fails. *)
Definition iter_lines (path : string) (w : world) : list string * outcome unit :=
  match fs w !! path with
  | Some (File f) =>
      if negb (f_readable f)
      then ([], raise_ PermissionError ("[Errno 13] Permission denied: " +:+ repr_str path))
      else if negb (f_text f)
      then (whole_lines (f_data f), raise_ UnicodeDecodeError "invalid start byte")
      else (readlines (universal_newlines (f_data f)), Return tt)
  | Some Dir => ([], raise_ IsADirectoryError ("[Errno 21] Is a directory: " +:+ repr_str path))
  | None =>
      ([], raise_ FileNotFoundError
             ("[Errno 2] No such file or directory: " +:+ repr_str path))
  end.

(** The body of the outer loop of [grep] for one path.  A hit is
    appended to [hits] as soon as its line is seen, inside the [try]:
    the hits found before the file fails stay in the list, and the
    failure is passed over. *)
Definition file_hits (rx : regex) (filepath : string) : M (list string) :=
  fun w =>
    let '(lines, ending) := iter_lines filepath w in
    let hits :=
      omap (fun '(line_num, line) =>
              if re_search rx line
              then Some (filepath +:+ ":" +:+ str_of_Z line_num +:+ ":" +:+ rstrip line)
              else None)
           (enumerate 1 lines) in
    match ending with
    | Return _ => (Return hits, w)
    | Raise e =>
        if issubclass (exn_cls e) Exception_ then (Return hits, w) else (Raise e, w)
    | Hang => (Hang, w)
    end.

Fixpoint all_hits (rx : regex) (files : list string) : M (list string) :=
  match files with
  | [] => ret []
  | f :: files' =>
      let* h := file_hits rx f in
      let* hs := all_hits rx files' in
      ret (h ++ hs)
  end.

(** [grep] *)
Definition grep (args : value) : M string :=
  let* pat_v := lift (getitem args "pat") in
  let* pat := lift (as_str pat_v) in
  let* pattern := lift (re_compile pat) in
  let* path_v := lift (get args "path" (PStr ".")) in
  let* path := lift (as_str path_v) in
  let* files := (fun w => (Return (glob_glob (fs w) (path +:+ "/**")), w)) in
  let* hits := all_hits pattern files in
  ret (str_or (join nl (take 50 hits)) "none").

(** The [Popen] object: the child, the lines not read yet, the time since
    the child was started, the cached [returncode], and whether [kill]
    was called. *)
Record popen_state : Type := mk_proc {
  p_child : child;
  p_pending : list (Z * string);
  p_clock : Z;
  p_returncode : option Z;
  p_killed : bool
}.

(** [proc.stdout.readline()] blocks until a line is there or the pipe is
    closed, and then gives the line, or the empty string. *)
Definition readline (p : popen_state) : outcome string * popen_state :=
  match p_pending p with
  | (t, line) :: rest =>
      (Return line,
       mk_proc (p_child p) rest (Z.max (p_clock p) t) (p_returncode p) (p_killed p))
  | [] =>
      match ch_eof (p_child p) with
      | Some t =>
          (Return EmptyString,
           mk_proc (p_child p) [] (Z.max (p_clock p) t) (p_returncode p) (p_killed p))
      | None => (Hang, p)
      end
  end.

(** [proc.poll()] does not block; a call takes one tick of the clock.
    Once the exit status is known it is kept in [returncode]. *)
Definition poll (p : popen_state) : option Z * popen_state :=
  match p_returncode p with
  | Some rc => (Some rc, p)
  | None =>
      let t1 := (p_clock p + 1)%Z in
      match ch_exit (p_child p) with
      | Some (t, status) =>
          if (t <=? t1)%Z
          then (Some status, mk_proc (p_child p) (p_pending p) t1 (Some status) (p_killed p))
          else (None, mk_proc (p_child p) (p_pending p) t1 None (p_killed p))
      | None => (None, mk_proc (p_child p) (p_pending p) t1 None (p_killed p))
      end
  end.

(** [proc.wait(timeout=seconds)] returns at once when [returncode] is
    set; otherwise it waits for the exit, for at most the timeout. *)
Definition wait (timeout_ms : Z) (p : popen_state) : outcome Z * popen_state :=
  match p_returncode p with
  | Some rc => (Return rc, p)
  | None =>
      let deadline := (p_clock p + timeout_ms)%Z in
      match ch_exit (p_child p) with
      | Some (t, status) =>
          if (t <=? deadline)%Z
          then (Return status,
                mk_proc (p_child p) (p_pending p) (Z.max (p_clock p) t) (Some status) (p_killed p))
          else (raise_ TimeoutExpired "timed out after 30 seconds",
                mk_proc (p_child p) (p_pending p) deadline None (p_killed p))
      | None =>
          (raise_ TimeoutExpired "timed out after 30 seconds",
           mk_proc (p_child p) (p_pending p) deadline None (p_killed p))
      end
  end.

Definition kill (p : popen_state) : popen_state :=
  mk_proc (p_child p) (p_pending p) (p_clock p) (p_returncode p) true.

(** The [while True] loop of [bash]; [fuel] bounds the iterations. *)
Fixpoint read_loop (fuel : nat) (p : popen_state) (output_lines : list string)
  : outcome unit * (popen_state * list string) :=
  match fuel with
  | O => (Hang, (p, output_lines))
  | S fuel' =>
      match readline p with
      | (Return line, p1) =>
          match line with
          | EmptyString =>
              match poll p1 with
              | (Some _, p2) => (Return tt, (p2, output_lines))
              | (None, p2) => read_loop fuel' p2 output_lines
              end
          | _ => read_loop fuel' p1 (output_lines ++ [line])
          end
      | (Raise e, p1) => (Raise e, (p1, output_lines))
      | (Hang, p1) => (Hang, (p1, output_lines))
      end
  end.

(** The [try] block of [bash]: the loop, then [proc.wait(timeout=30)]. *)
Definition bash_try (fuel : nat) (p : popen_state)
  : outcome unit * (popen_state * list string) :=
  match read_loop fuel p [] with
  | (Return _, (p1, output_lines)) =>
      match wait 30000 p1 with
      | (Return _, p2) => (Return tt, (p2, output_lines))
      | (Raise e, p2) => (Raise e, (p2, output_lines))
      | (Hang, p2) => (Hang, (p2, output_lines))
      end
  | r => r
  end.

Definition timeout_marker : string := nl +:+ "(timed out after 30s)".

(** [bash] from the moment the child runs: the [try] block, the handler
    of [subprocess.TimeoutExpired], and the value returned. *)
Definition bash_run (fuel : nat) (ch : child) : outcome string * popen_state :=
  let p0 := mk_proc ch (ch_lines ch) 0 None false in
  let '(r, (p, output_lines)) :=
    match bash_try fuel p0 with
    | (Raise e, (p1, output_lines)) =>
        if issubclass (exn_cls e) TimeoutExpired
        then (Return tt, (kill p1, output_lines ++ [timeout_marker]))
        else (Raise e, (p1, output_lines))
    | r => r
    end in
  match r with
  | Return _ => (Return (str_or (strip (join EmptyString output_lines)) "(empty)"), p)
  | Raise e => (Raise e, p)
  | Hang => (Hang, p)
  end.

(** [bash] *)
Definition bash (fuel : nat) (args : value) : M string :=
  let* cmd := lift (getitem args "cmd") in
  let* ch := (fun w => (popen cmd w, w)) in
  fun w =>
    let (r, p) := bash_run fuel ch in
    (r, mk_world (ch_effect ch (fs w)) (now w + p_clock p) (sent w)).

(** ** Tool definitions: (description, schema, function) *)

Definition tool : Type := string * list (string * string) * (value -> M string).

Definition TOOLS (fuel : nat) : list (string * tool) :=
  [ ("read",
     ("Read file with line numbers (file path, not directory)",
      [("path", "string"); ("offset", "number?"); ("limit", "number?")],
      read));
    ("write",
     ("Write content to file",
      [("path", "string"); ("content", "string")],
      write));
    ("edit",
     ("Replace old with new in file (old must be unique unless all=true)",
      [("path", "string"); ("old", "string"); ("new", "string"); ("all", "boolean?")],
      edit));
    ("glob",
     ("Find files by pattern, sorted by mtime",
      [("pat", "string"); ("path", "string?")],
      glob));
    ("grep",
     ("Search files for regex pattern",
      [("pat", "string"); ("path", "string?")],
      grep));
    ("bash",
     ("Run shell command",
      [("cmd", "string")],
      bash fuel)) ].

Fixpoint find_tool (table : list (string * tool)) (name : string) : option tool :=
  match table with
  | [] => None
  | (n, t) :: table' => if String.eqb n name then Some t else find_tool table' name
  end.

(** [run_tool], with the table it looks the name up in made explicit *)
Definition run_tool_in (table : list (string * tool)) (name : string) (args : value)
  : M string :=
  try_except
    (match find_tool table name with
     | Some (_, _, fn) => fn args
     | None => raise KeyError (repr_str name)
     end)
    Exception_
    (fun err => ret ("error: " +:+ exn_str err)).

Definition run_tool (fuel : nat) (name : string) (args : value) : M string :=
  run_tool_in (TOOLS fuel) name args.

(** [make_schema] *)
Definition param_schema (table_entry : string * tool) : value :=
  let '(name, (description, params, _)) := table_entry in
  let properties :=
    map (fun '(param_name, param_type) =>
           let base_type := rstrip_char "?" param_type in
           (param_name,
            PDict [("type", PStr (if String.eqb base_type "number"
                                  then "integer" else base_type))]))
        params in
  let required :=
    omap (fun '(param_name, param_type) =>
            if endswith_char param_type "?" then None else Some (PStr param_name))
         params in
  let schema := [("type", PStr "object"); ("properties", PDict properties)] in
  let schema :=
    match required with
    | [] => schema
    | _ => store schema "required" (PList required)
    end in
  PDict [("type", PStr "function"); ("name", PStr name);
         ("description", PStr description); ("parameters", PDict schema)].

Definition make_schema (fuel : nat) : value :=
  PList (map param_schema (TOOLS fuel)).

End WithHost.

End Tools.

(** ** The agent loop *)

Module Agent.

Import Tools.

Section WithHost.
Context {H : host}.

(** The request body [call_api] builds *)
Definition payload (fuel : nat) (input_data : value) (system_prompt : string)
    (previous_interaction_id : value) : list (string * value) :=
  let payload :=
    [("model", PStr MODEL);
     ("input", input_data);
     ("tools", make_schema fuel);
     ("system_instruction", PStr system_prompt);
     ("generation_config", PDict [("max_output_tokens", PInt 8192)])] in
  if truthy previous_interaction_id
  then store payload "previous_interaction_id" previous_interaction_id
  else payload.

(** [call_api]: the request body is recorded in [sent] when it is handed
    to [urllib.request.urlopen]. *)
Definition call_api (fuel : nat) (input_data : value) (system_prompt : string)
    (previous_interaction_id : value) : M value :=
  if String.eqb GEMINI_API_KEY EmptyString
  then raise RuntimeError "Missing GEMINI_API_KEY"
  else
    fun w =>
      let history :=
        sent w ++ [PDict (payload fuel input_data system_prompt previous_interaction_id)] in
      let w' := mk_world (fs w) (now w) history in
      match urlopen history with
      | Return body => (json_loads body, w')
      | Raise e => (Raise e, w')
      | Hang => (Hang, w')
      end.

(** [normalize_tool_args] returns the pair (arguments, error) *)
Definition normalize_tool_args (tool_args : value) : outcome (value * option string) :=
  match tool_args with
  | PDict _ => Return (tool_args, None)
  | PStr s =>
      match json_loads s with
      | Return v => Return (v, None)
      | Raise e =>
          if issubclass (exn_cls e) JSONDecodeError
          then Return (PNone, Some ("error: tool arguments not valid JSON: " +:+ s))
          else Raise e
      | Hang => Hang
      end
  | PNone => Return (PDict [], None)
  | v => Return (PNone,
                 Some ("error: tool arguments must be object, got " +:+ type_name v))
  end.

(** [for x in v] *)
Definition iterate (v : value) : outcome (list value) :=
  match v with
  | PList l => Return l
  | PDict d => Return (map (fun kv => PStr (fst kv)) d)
  | PStr s => Return (map (fun c => PStr (String c EmptyString)) (list_ascii_of_string s))
  | v => raise_ TypeError ("'" +:+ type_name v +:+ "' object is not iterable")
  end.

Definition is_str (v : value) (s : string) : bool :=
  match v with
  | PStr s' => String.eqb s' s
  | _ => false
  end.

(** [handle_outputs]: text outputs are shown ([render_markdown] wants a
    string), function calls are collected. *)
Fixpoint handle_outputs_from (tool_calls : list value) (outputs : list value)
  : outcome (list value) :=
  match outputs with
  | [] => Return tool_calls
  | output :: outputs' =>
      match get output "type" PNone with
      | Return output_type =>
          if is_str output_type "text" then
            match get output "text" (PStr EmptyString) with
            | Return (PStr _) => handle_outputs_from tool_calls outputs'
            | Return _ => raise_ TypeError "expected string or bytes-like object"
            | Raise e => Raise e
            | Hang => Hang
            end
          else if is_str output_type "function_call"
          then handle_outputs_from (tool_calls ++ [output]) outputs'
          else handle_outputs_from tool_calls outputs'
      | Raise e => Raise e
      | Hang => Hang
      end
  end.

Definition handle_outputs (outputs : value) : outcome (list value) :=
  match iterate outputs with
  | Return l => handle_outputs_from [] l
  | Raise e => Raise e
  | Hang => Hang
  end.

(** The body of [for call in tool_calls] in [main]; [dispatch] stands for
    [run_tool]. *)
Definition run_call (dispatch : string -> value -> M string) (call : value)
  : M value :=
  let* tool_name := lift (get call "name" (PStr EmptyString)) in
  let* raw_args := lift (get call "arguments" (PDict [])) in
  let* name :=
    lift (match tool_name with
          | PStr s => Return s
          | v => raise_ AttributeError
                   ("'" +:+ type_name v +:+ "' object has no attribute 'capitalize'")
          end) in
  let* normalized := lift (normalize_tool_args raw_args) in
  let '(tool_args, arg_error) := normalized in
  let* result :=
    match arg_error with
    | Some e => if negb (String.eqb e EmptyString) then ret e else dispatch name tool_args
    | None => dispatch name tool_args
    end in
  let* call_id := lift (get call "id" (PStr EmptyString)) in
  ret (PDict [("type", PStr "function_result");
              ("name", tool_name);
              ("call_id", call_id);
              ("result", PStr result)]).

Fixpoint run_calls (dispatch : string -> value -> M string)
    (tool_results : list value) (tool_calls : list value) : M (list value) :=
  match tool_calls with
  | [] => ret tool_results
  | call :: tool_calls' =>
      let* r := run_call dispatch call in
      run_calls dispatch (tool_results ++ [r]) tool_calls'
  end.

(** One pass through the inner [while True] of [main], up to and
    including the next request: [None] when the turn is over. *)
Definition agent_step (fuel : nat) (system_prompt : string)
    (interaction previous_interaction_id : value) : M (option (value * value)) :=
  let* outputs := lift (get interaction "outputs" (PList [])) in
  let* tool_calls := lift (handle_outputs outputs) in
  match tool_calls with
  | [] => ret None
  | _ =>
      let* tool_results := run_calls (run_tool fuel) [] tool_calls in
      let* interaction' :=
        call_api fuel (PList tool_results) system_prompt previous_interaction_id in
      let* id' := lift (get interaction' "id" previous_interaction_id) in
      ret (Some (interaction', id'))
  end.

(** The inner loop; [rounds] bounds the number of passes.  It returns
    [previous_interaction_id] as it stands when the turn is over. *)
Fixpoint agent_loop (rounds fuel : nat) (system_prompt : string)
    (interaction previous_interaction_id : value) : M value :=
  match rounds with
  | O => lift Hang
  | S rounds' =>
      let* next := agent_step fuel system_prompt interaction previous_interaction_id in
      match next with
      | None => ret previous_interaction_id
      | Some (interaction', id') =>
          agent_loop rounds' fuel system_prompt interaction' id'
      end
  end.

End WithHost.

End Agent.

(** ** A host to run the program on

    The statements below hold on every host.  This one is small enough to
    compute with: a reader for JSON documents without fractions, exponents
    and [\u] escapes (it rejects those), patterns that are plain words,
    [glob] patterns that are a prefix followed by stars, and a shell that
    knows [sleep] and [echo]. *)

Module Sample.

Definition is_ws (c : ascii) : bool :=
  let n := N_of_ascii c in
  ((n =? 32) || (n =? 9) || (n =? 10) || (n =? 13))%N.

Definition is_digit (c : ascii) : bool :=
  let n := N_of_ascii c in
  ((48 <=? n) && (n <=? 57))%N.

Definition digit_val (c : ascii) : Z := (Z.of_N (N_of_ascii c) - 48)%Z.

Fixpoint skip_ws (s : string) : string :=
  match s with
  | String c s' => if is_ws c then skip_ws s' else s
  | EmptyString => s
  end.

Fixpoint read_digits (acc : Z) (s : string) : Z * string :=
  match s with
  | String c s' =>
      if is_digit c then read_digits (10 * acc + digit_val c)%Z s' else (acc, s)
  | EmptyString => (acc, s)
  end.

Definition read_int (s : string) : option (value * string) :=
  let '(neg, s1) :=
    match s with
    | String "-"%char r => (true, r)
    | _ => (false, s)
    end in
  match s1 with
  | String c r =>
      if is_digit c then
        let '(n, rest) :=
          if Ascii.eqb c "0"%char then (0%Z, r) else read_digits 0 s1 in
        let v := PInt (if neg then - n else n)%Z in
        match rest with
        | String d _ =>
            if Ascii.eqb d "."%char || Ascii.eqb d "e"%char || Ascii.eqb d "E"%char
            then None
            else Some (v, rest)
        | EmptyString => Some (v, rest)
        end
      else None
  | EmptyString => None
  end.

Definition unescape (c : ascii) : option ascii :=
  if Ascii.eqb c DQ then Some DQ
  else if Ascii.eqb c "\"%char then Some "\"%char
  else if Ascii.eqb c "/"%char then Some "/"%char
  else if Ascii.eqb c "b"%char then Some "008"%char
  else if Ascii.eqb c "f"%char then Some "012"%char
  else if Ascii.eqb c "n"%char then Some LF
  else if Ascii.eqb c "r"%char then Some CR
  else if Ascii.eqb c "t"%char then Some "009"%char
  else None.

(** The characters of a string literal, after its opening quote *)
Fixpoint read_string (s : string) : option (string * string) :=
  match s with
  | EmptyString => None
  | String c r =>
      if Ascii.eqb c DQ then Some (EmptyString, r)
      else if Ascii.eqb c "\"%char then
        match r with
        | String e r' =>
            match unescape e, read_string r' with
            | Some ch, Some (x, rest) => Some (String ch x, rest)
            | _, _ => None
            end
        | EmptyString => None
        end
      else if (N_of_ascii c <? 32)%N then None
      else
        match read_string r with
        | Some (x, rest) => Some (String c x, rest)
        | None => None
        end
  end.

Fixpoint read_value (fuel : nat) (s : string) : option (value * string) :=
  match fuel with
  | O => None
  | S fuel' =>
      match skip_ws s with
      | EmptyString => None
      | String c r as s1 =>
          if Ascii.eqb c DQ then
            match read_string r with
            | Some (x, rest) => Some (PStr x, rest)
            | None => None
            end
          else if Ascii.eqb c "["%char then
            match skip_ws r with
            | String "]"%char rest => Some (PList [], rest)
            | r0 =>
                (fix elements (n : nat) (r1 : string) (acc : list value) {struct n}
                   : option (value * string) :=
                   match n with
                   | O => None
                   | S n' =>
                       match read_value fuel' r1 with
                       | Some (v, r2) =>
                           match skip_ws r2 with
                           | String ","%char r3 => elements n' r3 (acc ++ [v])
                           | String "]"%char r3 => Some (PList (acc ++ [v]), r3)
                           | _ => None
                           end
                       | None => None
                       end
                   end) fuel' r0 []
            end
          else if Ascii.eqb c "{"%char then
            match skip_ws r with
            | String "}"%char rest => Some (PDict [], rest)
            | r0 =>
                (fix members (n : nat) (r1 : string) (acc : list (string * value))
                     {struct n} : option (value * string) :=
                   match n with
                   | O => None
                   | S n' =>
                       match skip_ws r1 with
                       | String q r2 =>
                           match (if Ascii.eqb q DQ then read_string r2 else None) with
                           | Some (k, r3) =>
                               match skip_ws r3 with
                               | String ":"%char r4 =>
                                   match read_value fuel' r4 with
                                   | Some (v, r5) =>
                                       match skip_ws r5 with
                                       | String ","%char r6 => members n' r6 (store acc k v)
                                       | String "}"%char r6 => Some (PDict (store acc k v), r6)
                                       | _ => None
                                       end
                                   | None => None
                                   end
                               | _ => None
                               end
                           | None => None
                           end
                       | EmptyString => None
                       end
                   end) fuel' r0 []
            end
          else if startswith s1 "null" then Some (PNone, sdrop 4 s1)
          else if startswith s1 "true" then Some (PBool true, sdrop 4 s1)
          else if startswith s1 "false" then Some (PBool false, sdrop 5 s1)
          else read_int s1
      end
  end.

Definition json_read (s : string) : outcome value :=
  match read_value (S (String.length s)) s with
  | Some (v, rest) =>
      match skip_ws rest with
      | EmptyString => Return v
      | _ => raise_ JSONDecodeError "Extra data"
      end
  | None => raise_ JSONDecodeError "Expecting value"
  end.

(** Patterns that are plain words: a word of letters, digits, spaces and
    underscores is found where it occurs. *)
Definition is_word_char (c : ascii) : bool :=
  let n := N_of_ascii c in
  ((n =? 32) || (n =? 95) || ((48 <=? n) && (n <=? 57))
   || ((65 <=? n) && (n <=? 90)) || ((97 <=? n) && (n <=? 122)))%N.

Definition word_compile (pat : string) : outcome string :=
  if forallb is_word_char (list_ascii_of_string pat)
  then Return pat
  else raise_ re_error "pattern outside the sample fragment".

(** [prefix**]: every path that begins with [prefix], in the order of the
    table. *)
Fixpoint upto_star (pattern : string) : string :=
  match pattern with
  | EmptyString => EmptyString
  | String c p' => if Ascii.eqb c "*"%char then EmptyString else String c (upto_star p')
  end.

Definition prefix_glob (fsys : gmap string node) (pattern : string) : list string :=
  List.filter (fun p => startswith p (upto_star pattern)) (map fst (map_to_list fsys)).

(** [sleep N] writes nothing and exits after [N] seconds; [echo TEXT]
    writes one line; anything else is not found. *)
Definition shell (cmd : value) (w : world) : outcome child :=
  match cmd with
  | PStr c =>
      if startswith c "sleep " then
        let '(secs, _) := read_digits 0 (sdrop 6 c) in
        Return (mk_child [] (Some (1000 * secs)%Z) (Some ((1000 * secs)%Z, 0%Z)) id)
      else if startswith c "echo " then
        Return (mk_child [(1%Z, sdrop 5 c +:+ nl)] (Some 2%Z) (Some (2%Z, 0%Z)) id)
      else
        Return (mk_child [(1%Z, "/bin/sh: 1: " +:+ c +:+ ": not found" +:+ nl)]
                  (Some 2%Z) (Some (2%Z, 127%Z)) id)
  | v => raise_ TypeError ("expected str, got " +:+ type_name v)
  end.

(** A string literal of a JSON document *)
Definition quoted (s : string) : string := String DQ (s +:+ String DQ EmptyString).

(** The service's answer on this host: no output, the turn is over. *)
Definition final_answer : string :=
  "{" +:+ quoted "id" +:+ ": " +:+ quoted "i2" +:+ ", "
  +:+ quoted "outputs" +:+ ": []}".

Definition sample_host : host := {|
  regex := string;
  re_compile := word_compile;
  re_search := fun rx line => contains line rx;
  glob_glob := prefix_glob;
  json_loads := json_read;
  popen := shell;
  creatable := fun _ _ => true;
  fd_read := fun _ => raise_ OSError "[Errno 9] Bad file descriptor";
  fd_write := fun _ _ => raise_ OSError "[Errno 9] Bad file descriptor";
  urlopen := fun _ => Return final_answer;
  MODEL := "gemini-3-flash-preview";
  GEMINI_API_KEY := "key";
  getcwd := "/work"
|}.

End Sample.

(** ** Observations the statements are phrased with *)

Module Obs.

Import Tools Agent.

(** The characters stored in the regular file at [path] *)
Definition stored (w : world) (path : string) : option string :=
  match fs w !! path with
  | Some (File f) => Some (f_data f)
  | _ => None
  end.

(** The world after [data] was written to the existing file [f] at [path] *)
Definition written (w : world) (path : string) (f : file) (data : string) : world :=
  mk_world
    (<[path := File (mk_file data (now w) (f_readable f) true true)]> (fs w))
    (now w) (sent w).

(** A world with one regular file, and nothing else *)
Definition one_file (path data : string) : world :=
  mk_world {[ path := File (mk_file data 0 true true true) ]} 0 [].

(** The lines [grep] sees in the file at [p]: all of them when the file
    decodes, those handed out before the failure when it does not, and
    none when [p] cannot be opened. *)
Definition lines_of (w : world) (p : string) : list string :=
  match fs w !! p with
  | Some (File f) =>
      if negb (f_readable f) then []
      else if f_text f then readlines (universal_newlines (f_data f))
      else whole_lines (f_data f)
  | _ => []
  end.

(** The matches of one file, in line order, as [path:line_number:line] *)
Definition matches_in {H : host} (rx : regex) (w : world) (p : string) : list string :=
  omap (fun '(line_num, line) =>
          if re_search rx line
          then Some (p +:+ ":" +:+ str_of_Z line_num +:+ ":" +:+ rstrip line)
          else None)
       (enumerate 1 (lines_of w p)).


(** The number of line feeds in a string *)
Fixpoint line_feeds (s : string) : nat :=
  match s with
  | EmptyString => 0
  | String c s' => (if Ascii.eqb c LF then 1 else 0) + line_feeds s'
  end.

(** An outcome is admissible when, if it is an exception, it is one that
    [except Exception] catches; in the strict sense it must also come
    back. *)
Definition admissible (strict : bool) {A} (o : outcome A) : Prop :=
  match o with
  | Return _ => True
  | Raise e => issubclass (exn_cls e) Exception_ = true
  | Hang => strict = false
  end.

Definition comes_back {A} (o : outcome A) : Prop :=
  match o with
  | Hang => False
  | _ => True
  end.

(** The library calls of the tools fail with exceptions derived from
    [Exception] only: no interrupt is delivered while a tool runs. *)
Definition library_raises_exceptions (H : host) : Prop :=
  (forall pat, admissible false (re_compile pat))
  /\ (forall cmd w, admissible false (popen cmd w))
  /\ (forall fd, admissible false (fd_read fd))
  /\ (forall fd s, admissible false (fd_write fd s)).

(** The library calls of the tools come back, and every child process is
    done within [fuel] rounds of the loop that reads its output. *)
Definition library_returns (H : host) (fuel : nat) : Prop :=
  (forall pat, comes_back (re_compile pat))
  /\ (forall cmd w, comes_back (popen cmd w))
  /\ (forall fd, comes_back (fd_read fd))
  /\ (forall fd s, comes_back (fd_write fd s))
  /\ (forall cmd w ch, popen cmd w = Return ch -> comes_back (fst (bash_run fuel ch))).

(** The outputs of a response *)
Definition output_type (o : value) : value :=
  match o with
  | PDict d => default PNone (lookup d "type")
  | _ => PNone
  end.

Definition is_function_call (o : value) : bool := is_str (output_type o) "function_call".

Definition is_string (v : value) : bool :=
  match v with
  | PStr _ => true
  | _ => false
  end.

(** An output as the data model has it: a record; the text of a text
    output is a string, and so is the name of a function call. *)
Definition well_formed_output (o : value) : bool :=
  match o with
  | PDict d =>
      if is_str (output_type o) "text"
      then is_string (default (PStr EmptyString) (lookup d "text"))
      else if is_function_call o
      then is_string (default (PStr EmptyString) (lookup d "name"))
      else true
  | _ => false
  end.

(** The fields of a call and of a result record *)
Definition field (key : string) (dflt : value) (r : value) : value :=
  match r with
  | PDict d => default dflt (lookup d key)
  | _ => dflt
  end.

(** A raw argument value that is neither a mapping, nor a string, nor
    absent *)
Definition other_shape (v : value) : bool :=
  match v with
  | PBool _ | PInt _ | PFloat _ | PList _ => true
  | _ => false
  end.

(** The record [main] appends to [tool_results] *)
Definition function_result (tool_name call_id : value) (result : string) : value :=
  PDict [("type", PStr "function_result");
         ("name", tool_name);
         ("call_id", call_id);
         ("result", PStr result)].

(** [results] are the records of [calls]: one for each call, in the
    order of the calls, with the name and the id of its call. *)
Definition records_of (calls results : list value) : Prop :=
  Forall2 (fun call r =>
             exists result,
               r = function_result (field "name" (PStr EmptyString) call)
                     (field "id" (PStr EmptyString) call) result)
          calls results.

(** The loop body comes back on [call]: [json.loads] decodes or rejects
    its arguments when they come as a string, and if they are accepted,
    the tool it names, run on them, comes back with a result or with an
    [Exception], in whatever state the calls before it leave the
    world.  This is about this call only. *)
Definition answered {H : host} (fuel : nat) (call : value) : Prop :=
  exists args arg_error,
    normalize_tool_args (field "arguments" (PDict []) call) = Return (args, arg_error)
    /\ (arg_error = None ->
        forall name w,
          field "name" (PStr EmptyString) call = PStr name ->
          exists result w', run_tool fuel name args w = (Return result, w')).

(** A computation that sends nothing to the remote service *)
Definition keeps_sent {A} (c : M A) : Prop :=
  forall w, sent (snd (c w)) = sent w.

End Obs.

Import Tools Agent Obs.

(** ** Concrete inputs for the examples *)

Module Cases.

Definition text_once : string := "one two" +:+ nl +:+ "three".
Definition text_twice : string := "two two" +:+ nl.

Definition edit_args (old new : string) : list (string * value) :=
  [("path", PStr "f.txt"); ("old", PStr old); ("new", PStr new)].

Definition three_lines : string :=
  "one" +:+ nl +:+ "two" +:+ nl +:+ "three" +:+ nl.

(** Two files and a directory *)
Definition tree : world :=
  mk_world
    (<["./a.txt" := File (mk_file three_lines 5 true true true)]>
       (<["./d" := Dir]>
          (<["./b.txt" := File (mk_file "two" 9 true true true)]> ∅)))
    100 [].

(** The same, and a file that does not decode: the reader gets one line
    and the start of the next before it fails. *)
Definition tree_with_binary : world :=
  mk_world
    (<["./big.bin" := File (mk_file ("two" +:+ nl +:+ "two again") 7 true true false)]>
       (fs tree))
    100 [].

(** A child that writes nothing and exits after [ms] milliseconds, as
    [sleep] does *)
Definition sleeper (ms : Z) : child :=
  mk_child [] (Some ms) (Some (ms, 0%Z)) id.

(** A response with a text and one function call *)
Definition read_call : value :=
  PDict [("type", PStr "function_call"); ("name", PStr "read");
         ("arguments", PDict [("path", PStr "f.txt")]); ("id", PStr "c1")].

Definition response : list (string * value) :=
  [("id", PStr "i1");
   ("outputs", PList [PDict [("type", PStr "text"); ("text", PStr "reading")];
                      read_call])].

End Cases.

Import Cases.

(** ** [load_dotenv] *)

Module Dotenv.

Import Tools.

Definition NUL : ascii := "000"%char.

(** [c in s] for a character *)
Fixpoint has_char (c : ascii) (s : string) : bool :=
  match s with
  | EmptyString => false
  | String x s' => Ascii.eqb x c || has_char c s'
  end.

(** [s.split(c, 1)[0]]: what comes before the first [c] *)
Fixpoint before_first (c : ascii) (s : string) : string :=
  match s with
  | EmptyString => EmptyString
  | String x s' => if Ascii.eqb x c then EmptyString else String x (before_first c s')
  end.

(** [s.split(c, 1)[1]] when [c] is in [s]: what comes after the first [c] *)
Fixpoint after_first (c : ascii) (s : string) : string :=
  match s with
  | EmptyString => EmptyString
  | String x s' => if Ascii.eqb x c then s' else after_first c s'
  end.

(** [s[:-1]] and [s[1:-1]] *)
Fixpoint drop_last (s : string) : string :=
  match s with
  | EmptyString => EmptyString
  | String _ EmptyString => EmptyString
  | String x s' => String x (drop_last s')
  end.

Definition inner (s : string) : string := drop_last (sdrop 1 s).

(** The body of [for line in f]: the pair handed to
    [os.environ.setdefault], or nothing when the line is skipped. *)
Definition parse_line (line : string) : option (string * string) :=
  let stripped := strip line in
  if String.eqb stripped EmptyString || startswith stripped "#" then None
  else
    let stripped :=
      if startswith stripped "export " then lstrip (sdrop 7 stripped) else stripped in
    if negb (has_char "="%char stripped) then None
    else
      let key := strip (before_first "="%char stripped) in
      let value := strip (after_first "="%char stripped) in
      if String.eqb key EmptyString then None
      else
        let value :=
          if (startswith value "'" && endswith_char value "'"%char)
             || (startswith value (String DQ EmptyString) && endswith_char value DQ)
          then inner value
          else if has_char "#"%char value then rstrip (before_first "#"%char value)
          else value in
        Some (key, value).

(** [os.environ.setdefault(key, value)]: a variable that is set is left
    alone; setting one with a null character in its name or value is
    refused with [ValueError]. *)
Definition setdefault (env : gmap string string) (key value : string)
  : outcome unit * gmap string string :=
  match env !! key with
  | Some _ => (Return tt, env)
  | None =>
      if has_char NUL key || has_char NUL value
      then (raise_ ValueError "embedded null byte", env)
      else (Return tt, <[key := value]> env)
  end.

Fixpoint load_lines (lines : list string) (env : gmap string string)
  : outcome unit * gmap string string :=
  match lines with
  | [] => (Return tt, env)
  | line :: lines' =>
      match parse_line line with
      | None => load_lines lines' env
      | Some (key, value) =>
          match setdefault env key value with
          | (Return _, env') => load_lines lines' env'
          | r => r
          end
      end
  end.

(** [os.path.isfile] *)
Definition isfile (fsys : gmap string node) (path : string) : bool :=
  match fsys !! path with
  | Some (File _) => true
  | _ => false
  end.

(** [load_dotenv]: the environment it leaves, and how it ends *)
Fixpoint load_dotenv (paths : list string) (w : world) (env : gmap string string)
  : outcome unit * gmap string string :=
  match paths with
  | [] => (Return tt, env)
  | path :: paths' =>
      if String.eqb path EmptyString || negb (isfile (fs w) path)
      then load_dotenv paths' w env
      else
        let '(lines, ending) := iter_lines path w in
        let '(ended, env') :=
          match load_lines lines env with
          | (Return _, env') => (ending, env')
          | r => r
          end in
        match ended with
        | Return _ => load_dotenv paths' w env'
        | Raise e =>
            if issubclass (exn_cls e) OSError
            then load_dotenv paths' w env'
            else (Raise e, env')
        | Hang => (Hang, env')
        end
  end.

End Dotenv.

(** ** The prompt loop of [main] *)

Module Repl.

Import Tools Agent Obs Dotenv.

(** [s[:n]] *)
Fixpoint stake (n : nat) (s : string) : string :=
  match n, s with
  | S n', String c s' => String c (stake n' s')
  | _, _ => EmptyString
  end.

(** What [main] shows of a result: the first 60 characters of its first
    line, and how much is left out. *)
Definition result_preview (result : string) : string :=
  let first := before_first LF result in
  let preview := stake 60 first in
  let more := line_feeds result in
  if 0 <? more
  then preview +:+ " ... +" +:+ str_of_Z (Z.of_nat more) +:+ " lines"
  else if 60 <? String.length first then preview +:+ "..."
  else preview.

Section WithHost.
Context {H : host}.

Definition system_prompt : string := "Concise coding assistant. cwd: " +:+ getcwd.

(** The inner [while True]: [previous_interaction_id] is part of what
    comes out, because an exception leaves it as it was last assigned. *)
Fixpoint turn_rounds (rounds fuel : nat) (interaction previous_interaction_id : value)
    (w : world) : outcome unit * value * world :=
  match rounds with
  | O => (Hang, previous_interaction_id, w)
  | S rounds' =>
      match agent_step fuel system_prompt interaction previous_interaction_id w with
      | (Return None, w') => (Return tt, previous_interaction_id, w')
      | (Return (Some (interaction', id')), w') =>
          turn_rounds rounds' fuel interaction' id' w'
      | (Raise e, w') => (Raise e, previous_interaction_id, w')
      | (Hang, w') => (Hang, previous_interaction_id, w')
      end
  end.

(** One turn: the request with the user's text, then the inner loop *)
Definition turn (rounds fuel : nat) (user_input : string)
    (previous_interaction_id : value) (w : world) : outcome unit * value * world :=
  match call_api fuel (PStr user_input) system_prompt previous_interaction_id w with
  | (Return interaction, w1) =>
      match get interaction "id" previous_interaction_id with
      | Return id1 => turn_rounds rounds fuel interaction id1 w1
      | Raise e => (Raise e, previous_interaction_id, w1)
      | Hang => (Hang, previous_interaction_id, w1)
      end
  | (Raise e, w1) => (Raise e, previous_interaction_id, w1)
  | (Hang, w1) => (Hang, previous_interaction_id, w1)
  end.

(** The outer [while True] of [main] on the lines [input()] returns, one
    after the other; the end of the list is the end of the input
    ([EOFError]) or an interrupt at the prompt.  It gives the
    continuation token as it stands when the loop is left.  What [main]
    prints is left out, and [separator] with it: the program is taken to
    run in a terminal, where [os.get_terminal_size] answers. *)
Fixpoint main_loop (rounds fuel : nat) (inputs : list string)
    (previous_interaction_id : value) (w : world) : outcome value * world :=
  match inputs with
  | [] => (Return previous_interaction_id, w)
  | line :: inputs' =>
      let user_input := strip line in
      if String.eqb user_input EmptyString
      then main_loop rounds fuel inputs' previous_interaction_id w
      else if String.eqb user_input "/q" || String.eqb user_input "exit"
      then (Return previous_interaction_id, w)
      else if String.eqb user_input "/c"
      then main_loop rounds fuel inputs' PNone w
      else
        match turn rounds fuel user_input previous_interaction_id w with
        | (Return _, id', w') => main_loop rounds fuel inputs' id' w'
        | (Raise e, id', w') =>
            if issubclass (exn_cls e) KeyboardInterrupt then (Return id', w')
            else if issubclass (exn_cls e) Exception_
            then main_loop rounds fuel inputs' id' w'
            else (Raise e, w')
        | (Hang, _, w') => (Hang, w')
        end
  end.

Definition main (rounds fuel : nat) (inputs : list string) (w : world)
  : outcome value * world :=
  main_loop rounds fuel inputs PNone w.

End WithHost.

End Repl.

Import Dotenv Repl.

(** ** The log of requests *)

Module Trace.

(** From [w] to [w'] requests were sent, and none was taken back. *)
Definition sent_grows (w w' : world) : Prop :=
  exists more, sent w' = sent w ++ more.

(** The text a line of input stands for is a prompt, not a command. *)
Definition is_prompt (user_input : string) : bool :=
  negb (String.eqb user_input EmptyString)
  && negb (String.eqb user_input "/q")
  && negb (String.eqb user_input "exit")
  && negb (String.eqb user_input "/c").

End Trace.

Import Trace.

(** ** Reading a schema entry *)

Module Schema.

Import Tools Obs.

(** The names listed under [required], and the table under [properties] *)
Definition schema_required (entry : value) : list value :=
  match field "required" PNone (field "parameters" PNone entry) with
  | PList l => l
  | _ => []
  end.

Definition schema_properties (entry : value) : list (string * value) :=
  match field "properties" PNone (field "parameters" PNone entry) with
  | PDict d => d
  | _ => []
  end.

Definition has_required (entry : value) : bool :=
  match field "parameters" PNone entry with
  | PDict d => match lookup d "required" with Some _ => true | None => false end
  | _ => false
  end.

End Schema.

Import Schema.

(** ** An environment file for the examples *)

Module EnvCases.

Definition dotenv_text : string :=
  "# keys" +:+ nl +:+ "MODEL=other" +:+ nl
  +:+ "export GEMINI_API_KEY='k#1'  " +:+ nl.

Definition dotenv_world : world := one_file ".env" dotenv_text.

Definition env0 : gmap string string := {[ "MODEL" := "m1" ]}.

End EnvCases.

Import EnvCases.

(** ** A service that stops the program *)

Module Stopping.

Import Sample.

(** As [sample_host], but the request to the service is ended from
    outside: [urlopen] raises an exception that is not an [Exception]. *)
Definition stopped_host : host := {|
  regex := string;
  re_compile := word_compile;
  re_search := fun rx line => contains line rx;
  glob_glob := prefix_glob;
  json_loads := json_read;
  popen := shell;
  creatable := fun _ _ => true;
  fd_read := fun _ => raise_ OSError "[Errno 9] Bad file descriptor";
  fd_write := fun _ _ => raise_ OSError "[Errno 9] Bad file descriptor";
  urlopen := fun _ => raise_ BaseException "stop";
  MODEL := "gemini-3-flash-preview";
  GEMINI_API_KEY := "key";
  getcwd := "/work"
|}.

End Stopping.

(** ** Computations that leave the world as it is *)

Module ReadOnly.

Definition leaves_world {A} (c : M A) : Prop :=
  forall w, snd (c w) = w.

End ReadOnly.

Import ReadOnly.

(** ** A host without API key *)

Module Keyless.

Import Sample.

Definition keyless_host : host := {|
  regex := string;
  re_compile := word_compile;
  re_search := fun rx line => contains line rx;
  glob_glob := prefix_glob;
  json_loads := json_read;
  popen := shell;
  creatable := fun _ _ => true;
  fd_read := fun _ => raise_ OSError "[Errno 9] Bad file descriptor";
  fd_write := fun _ _ => raise_ OSError "[Errno 9] Bad file descriptor";
  urlopen := fun _ => Return final_answer;
  MODEL := "gemini-3-flash-preview";
  GEMINI_API_KEY := EmptyString;
  getcwd := "/work"
|}.

End Keyless.

(** * Properties *)

(** ** Strings *)

Lemma sapp_nil_l (s : string) : EmptyString +:+ s = s.
Proof. reflexivity. Qed.

Lemma sapp_cons (c : ascii) (s t : string) : String c s +:+ t = String c (s +:+ t).
Proof. reflexivity. Qed.

Ltac norm_app := rewrite ?sapp_cons, ?sapp_nil_l in *.

Lemma sapp_nil_r (s : string) : s +:+ EmptyString = s.
Proof. induction s as [|c s IH]; norm_app; [reflexivity | now rewrite IH]. Qed.

Lemma sapp_assoc (a b c : string) : (a +:+ b) +:+ c = a +:+ (b +:+ c).
Proof. induction a as [|x a IH]; norm_app; [reflexivity | now rewrite IH]. Qed.

Lemma slength_app (a b : string) :
  String.length (a +:+ b) = String.length a + String.length b.
Proof. induction a as [|x a IH]; norm_app; simpl; [reflexivity | now rewrite IH]. Qed.

Lemma startswith_spec (s p : string) :
  startswith s p = true <-> exists t, s = p +:+ t.
Proof.
  revert s; induction p as [|a p IH]; intros s.
  - split; [intros _; now exists s | intros _; now destruct s].
  - destruct s as [|b s]; simpl.
    + split; [discriminate | intros [t Ht]; discriminate].
    + rewrite andb_true_iff, IH. split.
      * intros [Hab [t ->]]. apply Ascii.eqb_eq in Hab as ->. now exists t.
      * intros [t Ht]. norm_app. injection Ht as -> ->.
        split; [apply Ascii.eqb_refl | now exists t].
Qed.

Lemma startswith_app (p t : string) : startswith (p +:+ t) p = true.
Proof. apply startswith_spec. now exists t. Qed.

Lemma startswith_app_l (s p t : string) :
  startswith s p = true -> startswith (s +:+ t) p = true.
Proof.
  rewrite !startswith_spec. intros [u ->]. exists (u +:+ t). apply sapp_assoc.
Qed.

Lemma contains_spec (s old : string) :
  contains s old = true <-> exists pre post, s = pre +:+ old +:+ post.
Proof.
  induction s as [|c s IH]; cbn [contains].
  - rewrite orb_false_r, startswith_spec. split.
    + intros [t Ht]. now exists EmptyString, t.
    + intros [[|x pre] [post Hp]]; [now exists post | discriminate].
  - rewrite orb_true_iff, startswith_spec, IH. split.
    + intros [[t Ht] | [pre [post ->]]].
      * now exists EmptyString, t.
      * now exists (String c pre), post.
    + intros [[|x pre] [post Hp]].
      * left. now exists post.
      * right. norm_app. injection Hp as -> ->. now exists pre, post.
Qed.

Lemma sdrop_app (a b : string) : sdrop (String.length a) (a +:+ b) = b.
Proof. induction a as [|x a IH]; norm_app; simpl; [now destruct b | exact IH]. Qed.

Lemma sdrop_nil (k : nat) : sdrop k EmptyString = EmptyString.
Proof. now destruct k. Qed.

(** After a match of [String c old'] at the head of [String c s'], the
    scan resumes behind it. *)
Lemma skip_match (c a : ascii) (old' s' : string) :
  startswith (String c s') (String a old') = true ->
  exists t, s' = old' +:+ t /\ a = c /\
            sdrop (String.length (String a old') - 1) s' = t.
Proof.
  intros Hs. apply startswith_spec in Hs as [t Ht]. norm_app.
  injection Ht as -> ->. exists t. split; [reflexivity|]. split; [reflexivity|].
  simpl. rewrite Nat.sub_0_r. apply sdrop_app.
Qed.

(** ** [str.count] and [str.replace] *)

Lemma replace_from_spent (old new s : string) (k : nat) :
  replace_from k (Some 0) s old new = sdrop k s.
Proof.
  revert k; induction s as [|c s IH]; intros [|k]; simpl; try reflexivity.
  - now rewrite IH; destruct s.
  - apply IH.
Qed.

Lemma replace_from_count0 (old new s : string) (k : nat) (limit : option nat) :
  count_from k s old = 0 -> replace_from k limit s old new = sdrop k s.
Proof.
  revert k; induction s as [|c s IH]; intros [|k]; cbn [count_from replace_from sdrop];
    try reflexivity.
  - destruct (startswith (String c s) old); [discriminate|].
    intros Hc. rewrite andb_false_r, IH by exact Hc. now destruct s.
  - apply IH.
Qed.

Lemma count_from_contains (a : ascii) (o s : string) (k : nat) :
  1 <= count_from k s (String a o) <-> contains (sdrop k s) (String a o) = true.
Proof.
  revert k; induction s as [|c s IH]; intros [|k]; cbn [count_from sdrop].
  - cbn. split; [lia | discriminate].
  - cbn. split; [lia | discriminate].
  - cbn [contains]. destruct (startswith (String c s) (String a o)) eqn:Hs.
    + split; [reflexivity | lia].
    + rewrite IH. cbn [orb]. now destruct s.
  - apply IH.
Qed.

Lemma join_cons (sep x : string) (l : list string) :
  l <> [] -> join sep (x :: l) = x +:+ sep +:+ join sep l.
Proof. destruct l; [congruence | reflexivity]. Qed.

Lemma join_push (sep : string) (c : ascii) (g : string) (gs : list string) :
  join sep (String c g :: gs) = String c (join sep (g :: gs)).
Proof. destruct gs; reflexivity. Qed.

Lemma join_head (sep g : string) (gs : list string) :
  exists r, join sep (g :: gs) = g +:+ r.
Proof.
  destruct gs as [|g' gs].
  - exists EmptyString. symmetry; apply sapp_nil_r.
  - now exists (sep +:+ join sep (g' :: gs)).
Qed.

(** The first occurrence, and only that one, is replaced when the limit
    is one. *)
Lemma replace_from_first (a : ascii) (o new s : string) (k : nat) :
  contains (sdrop k s) (String a o) = true ->
  exists pre post,
    sdrop k s = pre +:+ String a o +:+ post /\
    replace_from k (Some 1) s (String a o) new = pre +:+ new +:+ post /\
    forall pre' post',
      sdrop k s = pre' +:+ String a o +:+ post' ->
      String.length pre <= String.length pre'.
Proof.
  revert k; induction s as [|c s IH]; intros [|k]; cbn [sdrop replace_from].
  - cbn. discriminate.
  - cbn. discriminate.
  - cbn [contains spent negb andb used].
    destruct (startswith (String c s) (String a o)) eqn:Hs.
    + intros _. destruct (skip_match _ _ _ _ Hs) as (t & -> & -> & Hd).
      exists EmptyString, t. rewrite replace_from_spent, Hd.
      repeat split. intros; simpl; lia.
    + cbn [orb]. intros Hc.
      destruct (IH 0) as (pre & post & Hsplit & Hrep & Hleft); [now destruct s|].
      assert (Hs0 : sdrop 0 s = s) by now destruct s.
      rewrite Hs0 in Hsplit, Hleft.
      exists (String c pre), post. rewrite Hrep, !(sapp_cons c pre).
      split; [now rewrite <- Hsplit|]. split; [reflexivity|].
      intros [|x pre'] post' Heq.
      * exfalso. rewrite sapp_nil_l in Heq.
        rewrite Heq, startswith_app in Hs. discriminate.
      * rewrite (sapp_cons x pre') in Heq. injection Heq as -> Heq.
        apply Hleft in Heq. simpl. lia.
  - apply IH.
Qed.

(** Without a limit, the text is cut at the occurrences counted by
    [count_from], and [new] is put where [old] was. *)
Lemma replace_from_all (a : ascii) (o new s : string) (k : nat) :
  exists segs,
    length segs = S (count_from k s (String a o)) /\
    sdrop k s = join (String a o) segs /\
    replace_from k None s (String a o) new = join new segs /\
    Forall (fun g => contains g (String a o) = false) segs.
Proof.
  revert k; induction s as [|c s IH]; intros [|k]; cbn [sdrop replace_from count_from].
  - exists [EmptyString]. repeat split. now constructor.
  - exists [EmptyString]. repeat split. now constructor.
  - cbn [spent negb andb used].
    destruct (startswith (String c s) (String a o)) eqn:Hs.
    + destruct (skip_match _ _ _ _ Hs) as (t & Hst & -> & Hd).
      destruct (IH (String.length (String c o) - 1)) as (segs & Hlen & Hsplit & Hrep & Hno).
      exists (EmptyString :: segs).
      assert (Hne : segs <> []) by (destruct segs; [discriminate | congruence]).
      rewrite !join_cons by exact Hne. rewrite !sapp_nil_l.
      split; [simpl; now rewrite Hlen|].
      split; [rewrite <- Hsplit, Hd, Hst; reflexivity|].
      split; [now rewrite Hrep|].
      now constructor.
    + destruct (IH 0) as (segs & Hlen & Hsplit & Hrep & Hno).
      assert (Hs0 : sdrop 0 s = s) by now destruct s.
      rewrite Hs0 in Hsplit.
      destruct segs as [|g gs]; [discriminate|].
      exists (String c g :: gs). rewrite !join_push, <- Hsplit, Hrep.
      repeat split; [exact Hlen|].
      pose proof (Forall_inv Hno) as Hg. pose proof (Forall_inv_tail Hno) as Hgs.
      cbv beta in Hg. constructor; [|exact Hgs].
      cbn [contains]. rewrite Hg, orb_false_r.
      destruct (startswith (String c g) (String a o)) eqn:Hsg; [|reflexivity].
      destruct (join_head (String a o) g gs) as [r Hr].
      apply (startswith_app_l _ _ r) in Hsg.
      rewrite sapp_cons, <- Hr, <- Hsplit, Hs in Hsg. discriminate.
  - apply IH.
Qed.



Lemma contains_nil (s : string) : contains s EmptyString = true.
Proof. now destruct s. Qed.


Lemma interleave_spent (s new : string) : interleave (Some 0) s new = s.
Proof. now destruct s. Qed.

Lemma interleave_all (s new : string) :
  exists segs,
    segs <> [] /\ length segs = S (String.length s) /\
    join EmptyString segs = s /\
    interleave None s new = new +:+ join new segs.
Proof.
  induction s as [|c s (segs & Hne & Hlen & Hjoin & Hint)].
  - exists [EmptyString]. repeat split; [congruence|].
    cbn. now rewrite sapp_nil_r.
  - exists (String c EmptyString :: segs).
    rewrite !join_cons by exact Hne. split; [congruence|].
    split; [simpl; now rewrite Hlen|].
    split; [now rewrite Hjoin|].
    cbn [interleave spent used]. now rewrite Hint.
Qed.

Lemma replace_first (s old new : string) :
  contains s old = true ->
  exists pre post,
    s = pre +:+ old +:+ post /\
    replace s old new (Some 1) = pre +:+ new +:+ post /\
    forall pre' post',
      s = pre' +:+ old +:+ post' -> String.length pre <= String.length pre'.
Proof.
  destruct old as [|a o]; cbn [replace].
  - intros _. exists EmptyString, s. split; [reflexivity|]. split.
    + destruct s as [|c s]; cbn [interleave spent used].
      * symmetry; apply sapp_nil_r.
      * now rewrite interleave_spent.
    + intros; simpl; lia.
  - intros Hc. assert (Hs0 : sdrop 0 s = s) by now destruct s.
    destruct (replace_from_first a o new s 0) as (pre & post & H1 & H2 & H3).
    { now rewrite Hs0. }
    rewrite Hs0 in H1, H3. now exists pre, post.
Qed.

Lemma replace_all (s old new : string) :
  exists segs,
    length segs = S (PyStr.count s old) /\
    s = join old segs /\
    replace s old new None = join new segs /\
    (old <> EmptyString -> Forall (fun g => contains g old = false) segs).
Proof.
  destruct old as [|a o]; cbn [replace PyStr.count].
  - destruct (interleave_all s new) as (segs & Hne & Hlen & Hjoin & Hint).
    exists (EmptyString :: segs). rewrite !join_cons by exact Hne.
    split; [simpl; now rewrite Hlen|].
    split; [now rewrite Hjoin|]. split; [now rewrite Hint|]. congruence.
  - assert (Hs0 : sdrop 0 s = s) by now destruct s.
    destruct (replace_from_all a o new s 0) as (segs & H1 & H2 & H3 & H4).
    rewrite Hs0 in H2. now exists segs.
Qed.



(** ** [edit] *)

Section Edit.
Context {H : host}.

Variables (w : world) (d : list (string * value)) (path old new : string) (f : file).
Hypothesis Hpath : lookup d "path" = Some (PStr path).
Hypothesis Hold : lookup d "old" = Some (PStr old).
Hypothesis Hnew : lookup d "new" = Some (PStr new).
Hypothesis Hfile : fs w !! path = Some (File f).
Hypothesis Hreadable : f_readable f = true.
Hypothesis Htext : f_text f = true.

Let text := universal_newlines (f_data f).
Let all := default PNone (lookup d "all").

Lemma edit_not_found :
  contains text old = false ->
  edit (PDict d) w = (Return "error: old_string not found", w).
Proof.
  intros Hc. unfold edit, bind, lift, getitem, open_read, as_str, ret.
  rewrite Hpath, Hfile, Hreadable, Htext, Hold, Hnew. cbn [negb].
  fold text. now rewrite Hc.
Qed.

Lemma edit_ambiguous :
  contains text old = true -> truthy all = false -> 1 < PyStr.count text old ->
  edit (PDict d) w =
    (Return ("error: old_string appears " +:+ str_of_Z (Z.of_nat (PyStr.count text old))
             +:+ " times, must be unique (use all=true)"), w).
Proof.
  intros Hc Hall Hk. unfold edit, bind, lift, getitem, get, open_read, as_str, ret.
  rewrite Hpath, Hfile, Hreadable, Htext, Hold, Hnew. cbn [negb].
  fold text. rewrite Hc. cbn [negb].
  replace (match lookup d "all" with Some v => Return v | None => Return PNone end)
    with (Return (A:=value) all) by (unfold all; now destruct (lookup d "all")).
  rewrite Hall. cbn [negb andb].
  apply Nat.ltb_lt in Hk. now rewrite Hk.
Qed.

Lemma edit_done :
  f_writable f = true ->
  contains text old = true -> (truthy all = true \/ PyStr.count text old <= 1) ->
  edit (PDict d) w =
    (Return "ok",
     written w path f
       (if truthy all then replace text old new None
        else replace text old new (Some 1))).
Proof.
  intros Hw Hc Hgate. unfold edit, bind, lift, getitem, get, open_read, as_str, ret.
  rewrite Hpath, Hfile, Hreadable, Htext, Hold, Hnew. cbn [negb].
  fold text. rewrite Hc. cbn [negb].
  replace (match lookup d "all" with Some v => Return v | None => Return PNone end)
    with (Return (A:=value) all) by (unfold all; now destruct (lookup d "all")).
  assert (Hg : negb (truthy all) && (1 <? PyStr.count text old) = false).
  { destruct Hgate as [-> | Hk]; [reflexivity|].
    apply andb_false_iff; right. apply Nat.ltb_ge. exact Hk. }
  rewrite Hg. unfold open_write, file_write, as_str.
  rewrite Hfile, Hw. cbn [fs now sent]. rewrite lookup_insert_eq.
  cbn [f_readable f_writable f_text]. unfold written.
  now rewrite insert_insert_eq.
Qed.

Lemma edit_returns_ok_only :
  contains text old = true -> (truthy all = true \/ PyStr.count text old <= 1) ->
  forall msg w', edit (PDict d) w = (Return msg, w') -> msg = "ok".
Proof.
  intros Hc Hgate msg w'. destruct (f_writable f) eqn:Hw.
  - rewrite (edit_done Hw Hc Hgate). now intros [= <- _].
  - unfold edit, bind, lift, getitem, get, open_read, as_str, ret.
    rewrite Hpath, Hfile, Hreadable, Htext, Hold, Hnew. cbn [negb].
    fold text. rewrite Hc. cbn [negb].
    replace (match lookup d "all" with Some v => Return v | None => Return PNone end)
      with (Return (A:=value) all) by (unfold all; now destruct (lookup d "all")).
    assert (Hg : negb (truthy all) && (1 <? PyStr.count text old) = false).
    { destruct Hgate as [-> | Hk]; [reflexivity|].
      apply andb_false_iff; right. apply Nat.ltb_ge. exact Hk. }
    rewrite Hg. unfold open_write. rewrite Hfile, Hw. discriminate.
Qed.

Lemma written_stored (data : string) : stored (written w path f data) path = Some data.
Proof. unfold stored, written. cbn [fs]. now rewrite lookup_insert_eq. Qed.

Lemma written_elsewhere (data p : string) :
  p <> path -> fs (written w path f data) !! p = fs w !! p.
Proof. intros Hp. unfold written. cbn [fs]. now rewrite lookup_insert_ne. Qed.


(** C4.  With the file content as [edit] reads it: when [old] is not in
    it, and when [old] occurs [k > 1] times while [all] is not true,
    [edit] returns a string that begins with [error: ] and the world,
    the file included, is as before; in the second case the string
    holds the decimal numeral of [k].  In no other case does [edit]
    return such a string. *)
Theorem edit_error_cases :
  (contains text old = false ->
   edit (PDict d) w = (Return "error: old_string not found", w))
  /\
  (contains text old = true -> truthy all = false -> 1 < PyStr.count text old ->
   exists msg,
     edit (PDict d) w = (Return msg, w) /\
     startswith msg "error: " = true /\
     contains msg (str_of_Z (Z.of_nat (PyStr.count text old))) = true)
  /\
  (forall msg w',
      edit (PDict d) w = (Return msg, w') ->
      startswith msg "error: " = true ->
      contains text old = false
      \/ (truthy all = false /\ 1 < PyStr.count text old)).
Proof.
  split; [exact edit_not_found|]. split.
  - intros Hc Hall Hk. eexists. split; [apply (edit_ambiguous Hc Hall Hk)|].
    split; [reflexivity|]. apply contains_spec.
    exists "error: old_string appears ", " times, must be unique (use all=true)".
    reflexivity.
  - intros msg w' Hrun Herr.
    destruct (contains text old) eqn:Hc; [right | now left].
    destruct (truthy all) eqn:Hall.
    + rewrite (edit_returns_ok_only Hc (or_introl Hall) _ _ Hrun) in Herr.
      discriminate.
    + split; [reflexivity|].
      destruct (Nat.lt_ge_cases 1 (PyStr.count text old)) as [Hk | Hk]; [exact Hk|].
      rewrite (edit_returns_ok_only Hc (or_intror Hk) _ _ Hrun) in Herr.
      discriminate.
Qed.

End Edit.


Lemma edit_error_cases_witness :
  exists msg,
    edit (H := Sample.sample_host) (PDict (edit_args "two" "2"))
      (one_file "f.txt" text_twice) = (Return msg, one_file "f.txt" text_twice) /\
    startswith msg "error: " = true /\
    contains msg "2" = true.
Proof.
  destruct (edit_error_cases (H := Sample.sample_host) (one_file "f.txt" text_twice)
              (edit_args "two" "2") "f.txt" "two" "2"
              (mk_file text_twice 0 true true true)
              eq_refl eq_refl eq_refl eq_refl eq_refl eq_refl)
    as (_ & Hamb & _).
  exact (Hamb eq_refl eq_refl (le_n 2)).
Defined.


(** ** Sorting by key, descending and stable *)

Section Sorting.
Context {A : Type} (key : A -> Z).







End Sorting.

(** ** [glob] *)

Lemma join_not_empty (sep x : string) (l : list string) :
  x <> EmptyString -> join sep (x :: l) <> EmptyString.
Proof.
  intros Hx. destruct x as [|c x]; [congruence|].
  rewrite join_push. discriminate.
Qed.

Lemma str_or_left (x y : string) : x <> EmptyString -> str_or x y = x.
Proof. destruct x; [congruence | reflexivity]. Qed.

Lemma get_default (d : list (string * value)) (key : string) (dflt : value) :
  get (PDict d) key dflt = Return (default dflt (lookup d key)).
Proof. unfold get. now destruct (lookup d key). Qed.

Section Glob.
Context {H : host}.


End Glob.

(** ** [grep] *)

Lemma line_feeds_app (a b : string) :
  line_feeds (a +:+ b) = line_feeds a + line_feeds b.
Proof.
  induction a as [|c a IH]; [reflexivity|].
  rewrite sapp_cons. cbn [line_feeds]. rewrite IH. lia.
Qed.

Lemma line_feeds_uint (u : Decimal.uint) : line_feeds (NilEmpty.string_of_uint u) = 0.
Proof. induction u; cbn; assumption || reflexivity. Qed.

Lemma line_feeds_str_of_Z (z : Z) : line_feeds (str_of_Z z) = 0.
Proof.
  unfold str_of_Z, NilZero.string_of_int, NilZero.string_of_uint.
  destruct (Z.to_int z) as [u | u]; destruct u; cbn [line_feeds];
    try reflexivity; try apply (line_feeds_uint (_ u)).
Qed.

Lemma rstrip_space (s : string) (c : ascii) :
  isspace c = true -> rstrip (s +:+ String c EmptyString) = rstrip s.
Proof.
  intros Hc. induction s as [|x s IH].
  - rewrite sapp_nil_l. cbn [rstrip]. now rewrite Hc.
  - rewrite sapp_cons. cbn [rstrip]. now rewrite IH.
Qed.

Lemma line_feeds_rstrip (s : string) : line_feeds (rstrip s) <= line_feeds s.
Proof.
  induction s as [|c s IH]; [reflexivity|].
  cbn [rstrip line_feeds]. destruct (rstrip s) as [|y r].
  - destruct (isspace c); cbn [line_feeds]; lia.
  - cbn [line_feeds] in *. lia.
Qed.

Lemma readlines_from_rstrip (text cur : string) :
  line_feeds cur = 0 ->
  Forall (fun line => line_feeds (rstrip line) = 0) (readlines_from cur text).
Proof.
  revert cur; induction text as [|c text IH]; intros cur Hcur; cbn [readlines_from].
  - destruct cur; constructor; [|constructor].
    pose proof (line_feeds_rstrip (String a cur)). lia.
  - destruct (Ascii.eqb c LF) eqn:Hc.
    + constructor; [|now apply IH].
      unfold nl. rewrite rstrip_space by reflexivity.
      pose proof (line_feeds_rstrip cur). lia.
    + apply IH. rewrite line_feeds_app. cbn [line_feeds]. rewrite Hc. lia.
Qed.

Lemma line_feeds_join (l : list string) :
  Forall (fun x => line_feeds x = 0) l ->
  line_feeds (join nl l) = length l - 1.
Proof.
  induction l as [|x l IH]; intros Hl; [reflexivity|].
  pose proof (Forall_inv Hl) as Hx. pose proof (Forall_inv_tail Hl) as Hl'.
  cbv beta in Hx. destruct l as [|y l]; [exact Hx|].
  rewrite join_cons by discriminate.
  rewrite !line_feeds_app, Hx, (IH Hl'). cbn. lia.
Qed.

Section Grep.
Context {H : host}.

Lemma file_hits_matches (rx : regex) (p : string) (w : world) :
  file_hits rx p w = (Return (matches_in rx w p), w).
Proof.
  unfold file_hits, iter_lines, matches_in, lines_of.
  destruct (fs w !! p) as [[f|]|]; try reflexivity.
  destruct (f_readable f), (f_text f); reflexivity.
Qed.

Lemma all_hits_matches (rx : regex) (files : list string) (w : world) :
  all_hits rx files w = (Return (flat_map (matches_in rx w) files), w).
Proof.
  induction files as [|p files IH]; [reflexivity|].
  cbn [all_hits flat_map]. unfold bind at 1. rewrite file_hits_matches.
  unfold bind at 1. now rewrite IH.
Qed.

Lemma matches_in_not_empty (rx : regex) (w : world) (p : string) :
  Forall (fun hit => hit <> EmptyString) (matches_in rx w p).
Proof.
  unfold matches_in. apply List.Forall_forall. intros hit Hin.
  apply list_elem_of_In, list_elem_of_omap in Hin as ([n line] & _ & Hhit).
  destruct (re_search rx line); [|discriminate].
  injection Hhit as <-. destruct p; discriminate.
Qed.

Lemma matches_in_one_line (rx : regex) (w : world) (p : string) :
  line_feeds p = 0 ->
  Forall (fun hit => line_feeds hit = 0) (matches_in rx w p).
Proof.
  intros Hp. unfold matches_in. apply List.Forall_forall. intros hit Hin.
  apply list_elem_of_In, list_elem_of_omap in Hin as ([n line] & Hline & Hhit).
  destruct (re_search rx line); [|discriminate].
  injection Hhit as <-.
  rewrite !line_feeds_app, Hp, line_feeds_str_of_Z. cbn [line_feeds Ascii.eqb].
  assert (Hl : Forall (fun line => line_feeds (rstrip line) = 0) (lines_of w p)).
  { unfold lines_of. destruct (fs w !! p) as [[f|]|]; try constructor.
    destruct (f_readable f); cbn [negb]; [|constructor].
    destruct (f_text f); [now apply readlines_from_rstrip|].
    unfold whole_lines. apply List.Forall_forall. intros l Hl.
    apply filter_In in Hl as [Hl _].
    pose proof (readlines_from_rstrip (universal_newlines (hold_cr (f_data f)))
                  EmptyString eq_refl) as Hall.
    rewrite List.Forall_forall in Hall. now apply Hall. }
  assert (Hin : In line (lines_of w p)).
  { clear -Hline. apply list_elem_of_In in Hline.
    generalize dependent 1%Z. induction (lines_of w p) as [|x l IH]; intros z Hz.
    - destruct Hz.
    - destruct Hz as [Hz | Hz]; [injection Hz as _ ->; now left | right; eauto]. }
  rewrite List.Forall_forall in Hl. rewrite (Hl _ Hin). reflexivity.
Qed.

(** C7.  When the pattern compiles, [grep] returns [none] if no line of
    any file matches, and otherwise the first 50 matches at most, one
    per line, where the matches are taken file by file in the order of
    enumeration and line by line within a file, each as
    [path:line_number:line].  The lines of a file are those the loop
    sees: of a file that stops decoding, the lines handed out before
    the failure, whose matches are kept; of a path that cannot be
    opened, none.  If no path holds a line feed, the result has at most
    50 lines. *)
Theorem grep_result (w : world) (d : list (string * value)) (pat path : string)
    (rx : regex) :
  lookup d "pat" = Some (PStr pat) ->
  re_compile pat = Return rx ->
  default (PStr ".") (lookup d "path") = PStr path ->
  exists hits result,
    let files := glob_glob (fs w) (path +:+ "/**") in
    hits = flat_map (matches_in rx w) files /\
    grep (PDict d) w = (Return result, w) /\
    (hits = [] -> result = "none") /\
    (hits <> [] -> result = join nl (take 50 hits)) /\
    length (take 50 hits) <= 50 /\
    (Forall (fun p => line_feeds p = 0) files -> line_feeds result < 50).
Proof.
  intros Hpat Hrx Hpath. eexists. eexists. cbv zeta.
  split; [reflexivity|]. split.
  { unfold grep, bind, lift, getitem, as_str. rewrite Hpat, Hrx, get_default, Hpath.
    rewrite all_hits_matches. reflexivity. }
  set (hits := flat_map _ _).
  assert (Hne : Forall (fun hit => hit <> EmptyString) hits).
  { apply List.Forall_forall. intros hit Hin. apply in_flat_map in Hin as (p & _ & Hin).
    pose proof (matches_in_not_empty rx w p) as Hall.
    rewrite List.Forall_forall in Hall. now apply Hall. }
  split; [intros ->; reflexivity|].
  assert (Hshown : hits <> [] -> str_or (join nl (take 50 hits)) "none" = join nl (take 50 hits)).
  { intros Hh. apply str_or_left. destruct hits as [|x l]; [congruence|].
    cbn [take]. apply join_not_empty. exact (Forall_inv Hne). }
  split; [exact Hshown|].
  split; [rewrite length_take; lia|].
  intros Hfiles. destruct hits as [|x l] eqn:Hh; [cbn; lia|].
  rewrite Hshown by discriminate. rewrite line_feeds_join.
  - rewrite length_take. lia.
  - apply Forall_take. rewrite <- Hh. unfold hits.
    apply List.Forall_forall. intros hit Hin. apply in_flat_map in Hin as (p & Hp & Hin).
    rewrite List.Forall_forall in Hfiles.
    pose proof (matches_in_one_line rx w p (Hfiles _ Hp)) as Hall.
    rewrite List.Forall_forall in Hall. now apply Hall.
Qed.

End Grep.


(** ** [run_tool] *)

Section Dispatch.
Context {H : host}.
Variables (strict : bool) (fuel : nat).
Hypothesis Hlib : library_raises_exceptions H.
Hypothesis Hret : strict = true -> library_returns H fuel.

Lemma from_library {A} (o : outcome A) :
  admissible false o -> (strict = true -> comes_back o) -> admissible strict o.
Proof.
  destruct o; cbn; auto. intros _ Hback.
  destruct strict; [exfalso; now apply Hback | reflexivity].
Qed.

Lemma admissible_bind {A B} (c : M A) (k : A -> M B) (w : world) :
  admissible strict (fst (c w)) ->
  (forall a w', admissible strict (fst (k a w'))) ->
  admissible strict (fst (bind c k w)).
Proof.
  unfold bind. intros Hc Hk.
  destruct (c w) as [[a | e |] w']; [apply Hk | exact Hc | exact Hc].
Qed.

Lemma admissible_lift {A} (o : outcome A) (w : world) :
  admissible strict o -> admissible strict (fst (lift o w)).
Proof. intros Ho. exact Ho. Qed.

Lemma admissible_getitem (args : value) (key : string) :
  admissible strict (getitem args key).
Proof. destruct args; cbn; try reflexivity. now destruct (lookup d key). Qed.

Lemma admissible_get (args : value) (key : string) (dflt : value) :
  admissible strict (get args key dflt).
Proof. destruct args; cbn; try reflexivity. now destruct (lookup d key). Qed.

Lemma admissible_as_str (v : value) : admissible strict (as_str v).
Proof. now destruct v. Qed.

Lemma admissible_as_index (v : value) : admissible strict (as_index v).
Proof. unfold as_index. now destruct (as_int v). Qed.

Lemma admissible_fd_read (fd : Z) : admissible strict (fd_read fd).
Proof. apply from_library; [apply Hlib | intros Hs; now apply Hret]. Qed.

Lemma admissible_fd_write (fd : Z) (s : string) : admissible strict (fd_write fd s).
Proof. apply from_library; [apply Hlib | intros Hs; now apply Hret]. Qed.

Lemma admissible_open_read (path : value) (w : world) :
  admissible strict (fst (open_read path w)).
Proof.
  unfold open_read. destruct path; cbn; try reflexivity; try apply admissible_fd_read.
  destruct (fs w !! s) as [[f|]|]; try reflexivity.
  destruct (f_readable f), (f_text f); reflexivity.
Qed.

Lemma admissible_open_write (path : value) (w : world) :
  admissible strict (fst (open_write path w)).
Proof.
  unfold open_write. destruct path; cbn; try reflexivity.
  destruct (fs w !! s) as [[f|]|].
  - now destruct (f_writable f).
  - reflexivity.
  - now destruct (creatable (fs w) s).
Qed.

Lemma admissible_file_write (f : handle) (content : value) (w : world) :
  admissible strict (fst (file_write f content w)).
Proof.
  unfold file_write. destruct content; cbn; try reflexivity.
  destruct f as [p | fd].
  - destruct (fs w !! p) as [[x|]|]; reflexivity.
  - pose proof (admissible_fd_write fd s) as Hfd. now destruct (fd_write fd s).
Qed.

Ltac step :=
  cbv beta zeta;
  lazymatch goal with
  | |- admissible _ (fst (bind _ _ _)) => apply admissible_bind; [|intros ? ?]
  | |- admissible _ (fst (lift _ _)) => apply admissible_lift
  | |- admissible _ (fst (ret _ _)) => exact I
  | |- admissible _ (fst (Return _, _)) => exact I
  | |- admissible _ (getitem _ _) => apply admissible_getitem
  | |- admissible _ (get _ _ _) => apply admissible_get
  | |- admissible _ (as_str _) => apply admissible_as_str
  | |- admissible _ (as_index _) => apply admissible_as_index
  | |- admissible _ (fst (open_read _ _)) => apply admissible_open_read
  | |- admissible _ (fst (open_write _ _)) => apply admissible_open_write
  | |- admissible _ (fst (file_write _ _ _)) => apply admissible_file_write
  end.

Ltac branch :=
  match goal with
  | |- context [if ?b then _ else _] => destruct b
  end.

Lemma admissible_read (args : value) (w : world) : admissible strict (fst (read args w)).
Proof. unfold read. repeat step. Qed.

Lemma admissible_write (args : value) (w : world) : admissible strict (fst (write args w)).
Proof. unfold write. repeat step. Qed.

Lemma admissible_edit (args : value) (w : world) : admissible strict (fst (edit args w)).
Proof.
  unfold edit. repeat first [step | branch].
Qed.

Lemma admissible_glob (args : value) (w : world) : admissible strict (fst (glob args w)).
Proof. unfold glob. repeat step. Qed.

Lemma admissible_grep (args : value) (w : world) : admissible strict (fst (grep args w)).
Proof.
  unfold grep. repeat step.
  - apply from_library; [apply Hlib | intros Hs; now apply Hret].
  - rewrite all_hits_matches. exact I.
Qed.

(** The loop of [bash] and [wait] never raise anything but
    [TimeoutExpired], which [bash] handles. *)
Lemma read_loop_no_raise (n : nat) (p : popen_state) (out : list string) (e : exn) s :
  read_loop n p out <> (Raise e, s).
Proof.
  revert p out; induction n as [|n IH]; intros p out; cbn [read_loop];
    [discriminate|].
  unfold readline. destruct (p_pending p) as [|[t line] rest].
  - destruct (ch_eof (p_child p)); [|discriminate].
    destruct (poll _) as [[rc|] p2]; [discriminate | apply IH].
  - destruct line; [|apply IH].
    destruct (poll _) as [[rc|] p2]; [discriminate | apply IH].
Qed.

Lemma bash_run_no_raise (n : nat) (ch : child) : admissible false (fst (bash_run n ch)).
Proof.
  unfold bash_run, bash_try.
  destruct (read_loop n _ []) as [[[] | e |] [p1 out]] eqn:Hloop.
  - unfold wait. destruct (p_returncode p1); [exact I|].
    destruct (ch_exit (p_child p1)) as [[t status]|]; [|exact I].
    destruct (_ <=? _)%Z; exact I.
  - now apply read_loop_no_raise in Hloop.
  - reflexivity.
Qed.

Lemma admissible_bash (args : value) (w : world) :
  admissible strict (fst (bash fuel args w)).
Proof.
  unfold bash. apply admissible_bind; [apply admissible_lift, admissible_getitem|].
  intros cmd w'. unfold bind.
  assert (Hp : admissible strict (popen cmd w')).
  { apply from_library; [apply Hlib | intros Hs; now apply Hret]. }
  destruct (popen cmd w') as [ch | e |] eqn:Hpopen; [|exact Hp | exact Hp].
  assert (Hrun : admissible strict (fst (bash_run fuel ch))).
  { apply from_library; [apply bash_run_no_raise|]. intros Hs.
    destruct (Hret Hs) as (_ & _ & _ & _ & Hchild). exact (Hchild _ _ _ Hpopen). }
  destruct (bash_run fuel ch) as [r p]. exact Hrun.
Qed.

Lemma admissible_tool (name description : string)
    (params : list (string * string)) (fn : value -> M string) :
  find_tool (TOOLS fuel) name = Some (description, params, fn) ->
  forall args w, admissible strict (fst (fn args w)).
Proof.
  unfold TOOLS. cbn [find_tool].
  repeat (destruct (String.eqb _ name);
          [intros [= _ _ <-];
           first [ apply admissible_read | apply admissible_write
                 | apply admissible_edit | apply admissible_glob
                 | apply admissible_grep | apply admissible_bash ] |]).
  discriminate.
Qed.

(** What [run_tool] makes of the outcome of the tool *)
Lemma run_tool_cases (name : string) (args : value) (w : world) :
  match find_tool (TOOLS fuel) name with
  | None =>
      exists s, run_tool fuel name args w = (Return s, w)
                /\ startswith s "error: " = true
  | Some (_, _, fn) =>
      match fn args w with
      | (Return r, w') => run_tool fuel name args w = (Return r, w')
      | (Raise e, w') =>
          run_tool fuel name args w = (Return ("error: " +:+ exn_str e), w')
      | (Hang, w') => run_tool fuel name args w = (Hang, w') /\ strict = false
      end
  end.
Proof.
  unfold run_tool, run_tool_in, try_except.
  destruct (find_tool (TOOLS fuel) name) as [[[description params] fn]|] eqn:Hfind.
  - pose proof (admissible_tool _ _ _ _ Hfind args w) as Hok.
    destruct (fn args w) as [[r | e |] w']; try reflexivity.
    + cbn in Hok. now rewrite Hok.
    + split; [reflexivity | exact Hok].
  - eexists. split; reflexivity.
Qed.

End Dispatch.

(** C1.  As long as the library calls fail with exceptions derived from
    [Exception], [run_tool] raises nothing, for any name and any
    argument value: for a name that is not in the table it returns a
    string that begins with [error: ]; for a tool that raises it returns
    [error: ] followed by the text of the exception; for a tool that
    returns it returns the same string; and it comes back exactly when
    the tool does. *)
Theorem run_tool_never_raises {H : host} (fuel : nat) (name : string)
    (args : value) (w : world) :
  library_raises_exceptions H ->
  (forall e w', run_tool fuel name args w <> (Raise e, w'))
  /\
  match find_tool (TOOLS fuel) name with
  | None =>
      exists s, run_tool fuel name args w = (Return s, w)
                /\ startswith s "error: " = true
  | Some (_, _, fn) =>
      match fn args w with
      | (Return r, w') => run_tool fuel name args w = (Return r, w')
      | (Raise e, w') =>
          run_tool fuel name args w = (Return ("error: " +:+ exn_str e), w')
      | (Hang, w') => run_tool fuel name args w = (Hang, w')
      end
  end.
Proof.
  intros Hlib.
  assert (Hret : false = true -> library_returns H fuel) by discriminate.
  pose proof (run_tool_cases false fuel Hlib Hret name args w) as Hcases.
  split.
  - intros e w' Hrun.
    destruct (find_tool (TOOLS fuel) name) as [[[description params] fn]|].
    + destruct (fn args w) as [[r | e' |] w'']; [congruence | congruence |].
      destruct Hcases as [Hc _]. congruence.
    + destruct Hcases as (s & Hs & _). congruence.
  - destruct (find_tool (TOOLS fuel) name) as [[[description params] fn]|];
      [|exact Hcases].
    destruct (fn args w) as [[r | e' |] w'']; try exact Hcases.
    apply Hcases.
Qed.

(** With a library that comes back, so does [run_tool], with a string. *)
Lemma run_tool_returns {H : host} (fuel : nat) (name : string)
    (args : value) (w : world) :
  library_raises_exceptions H -> library_returns H fuel ->
  exists r w', run_tool fuel name args w = (Return r, w').
Proof.
  intros Hlib Hret.
  pose proof (run_tool_cases true fuel Hlib (fun _ => Hret) name args w) as Hcases.
  destruct (find_tool (TOOLS fuel) name) as [[[description params] fn]|].
  - destruct (fn args w) as [[r | e |] w']; eauto.
    destruct Hcases as [_ Hc]. discriminate.
  - destruct Hcases as (s & Hs & _). eauto.
Qed.

(** ** Argument normalization *)

Section Normalize.
Context {H : host}.

Lemma normalize_error_prefix (raw junk : value) (err : string) :
  normalize_tool_args raw = Return (junk, Some err) ->
  startswith err "error: " = true.
Proof.
  unfold normalize_tool_args. destruct raw; try (intros [= _ <-]; reflexivity);
    try discriminate.
  destruct (json_loads s) as [v | e |]; try discriminate.
  destruct (issubclass _ _); [|discriminate]. intros [= _ <-]. reflexivity.
Qed.

(** The loop body on a call whose arguments are rejected: the result is
    the error, whatever [dispatch] is, and the world is as before. *)
Lemma run_call_rejected (dispatch : string -> value -> M string)
    (c : list (string * value)) (name : string) (junk : value) (err : string)
    (w : world) :
  default (PStr EmptyString) (lookup c "name") = PStr name ->
  normalize_tool_args (default (PDict []) (lookup c "arguments")) = Return (junk, Some err) ->
  run_call dispatch (PDict c) w
  = (Return (function_result (PStr name)
               (default (PStr EmptyString) (lookup c "id")) err), w).
Proof.
  intros Hname Hnorm. pose proof (normalize_error_prefix _ _ _ Hnorm) as Hpre.
  unfold run_call, bind, lift, ret. rewrite !get_default, Hname, Hnorm.
  destruct err as [|x err]; [discriminate|]. reflexivity.
Qed.

(** The loop body on a call whose arguments are accepted: [dispatch] is
    called once, with the normalized arguments. *)
Lemma run_call_accepted (dispatch : string -> value -> M string)
    (c : list (string * value)) (name : string) (args : value) (w : world) :
  default (PStr EmptyString) (lookup c "name") = PStr name ->
  normalize_tool_args (default (PDict []) (lookup c "arguments")) = Return (args, None) ->
  run_call dispatch (PDict c) w
  = match dispatch name args w with
    | (Return result, w') =>
        (Return (function_result (PStr name)
                   (default (PStr EmptyString) (lookup c "id")) result), w')
    | (Raise e, w') => (Raise e, w')
    | (Hang, w') => (Hang, w')
    end.
Proof.
  intros Hname Hnorm.
  unfold run_call, bind, lift, ret. rewrite !get_default, Hname, Hnorm.
  destruct (dispatch name args w) as [[r | e |] w']; reflexivity.
Qed.


(** C10.  Whenever [json.loads] makes of a string a value that is a
    number, a boolean or a list, [normalize_tool_args] accepts the
    string and gives that value, and the loop body hands it to the
    tool; the same value as raw arguments is refused with the error
    [must be object]. *)
Theorem encoded_non_mapping_accepted (s : string) (v : value) :
  json_loads s = Return v ->
  other_shape v = true ->
  is_dict v = false
  /\ normalize_tool_args (PStr s) = Return (v, None)
  /\ normalize_tool_args v
     = Return (PNone,
               Some ("error: tool arguments must be object, got " +:+ type_name v))
  /\ (forall dispatch name call_id w,
         run_call dispatch
           (PDict [("name", PStr name); ("arguments", PStr s); ("id", call_id)]) w
         = match dispatch name v w with
           | (Return result, w') =>
               (Return (function_result (PStr name) call_id result), w')
           | (Raise e, w') => (Raise e, w')
           | (Hang, w') => (Hang, w')
           end)
  /\ (forall dispatch name call_id w,
         run_call dispatch
           (PDict [("name", PStr name); ("arguments", v); ("id", call_id)]) w
         = (Return (function_result (PStr name) call_id
                      ("error: tool arguments must be object, got " +:+ type_name v)),
            w)).
Proof.
  intros Hs Hv.
  assert (Hraw : normalize_tool_args v
                 = Return (PNone,
                           Some ("error: tool arguments must be object, got "
                                 +:+ type_name v)))
    by (destruct v; try discriminate; reflexivity).
  assert (Hstr : normalize_tool_args (PStr s) = Return (v, None))
    by (cbn; now rewrite Hs).
  split; [destruct v; try discriminate; reflexivity|].
  split; [exact Hstr|]. split; [exact Hraw|]. split.
  - intros dispatch name call_id w.
    now rewrite (run_call_accepted dispatch
                   [("name", PStr name); ("arguments", PStr s); ("id", call_id)]
                   name v w eq_refl Hstr).
  - intros dispatch name call_id w.
    now rewrite (run_call_rejected dispatch
                   [("name", PStr name); ("arguments", v); ("id", call_id)]
                   name PNone _ w eq_refl Hraw).
Qed.

End Normalize.

(** ** The tools send nothing to the remote service *)

Section Quiet.
Context {H : host}.

Lemma keeps_bind {A B} (c : M A) (k : A -> M B) :
  keeps_sent c -> (forall a, keeps_sent (k a)) -> keeps_sent (bind c k).
Proof.
  intros Hc Hk w. unfold bind. specialize (Hc w).
  destruct (c w) as [[a | e |] w']; cbn in *; [|exact Hc | exact Hc].
  now rewrite Hk.
Qed.

Lemma keeps_lift {A} (o : outcome A) : keeps_sent (lift o).
Proof. intros w. reflexivity. Qed.

Lemma keeps_ret {A} (a : A) : keeps_sent (ret a).
Proof. intros w. reflexivity. Qed.

Lemma keeps_try_except {A} (body : M A) (cls : exn_class) (handler : exn -> M A) :
  keeps_sent body -> (forall e, keeps_sent (handler e)) ->
  keeps_sent (try_except body cls handler).
Proof.
  intros Hb Hh w. unfold try_except. specialize (Hb w).
  destruct (body w) as [[a | e |] w']; cbn in *; try exact Hb.
  destruct (issubclass _ _); [now rewrite Hh | exact Hb].
Qed.

Lemma keeps_open_read (path : value) : keeps_sent (open_read path).
Proof.
  intros w. unfold open_read. destruct path; try reflexivity.
  destruct (fs w !! s) as [[f|]|]; try reflexivity.
  destruct (f_readable f), (f_text f); reflexivity.
Qed.

Lemma keeps_open_write (path : value) : keeps_sent (open_write path).
Proof.
  intros w. unfold open_write. destruct path; try reflexivity.
  destruct (fs w !! s) as [[f|]|].
  - now destruct (f_writable f).
  - reflexivity.
  - now destruct (creatable (fs w) s).
Qed.

Lemma keeps_file_write (f : handle) (content : value) : keeps_sent (file_write f content).
Proof.
  intros w. unfold file_write. destruct content; try reflexivity. cbn.
  destruct f as [p | fd]; [|reflexivity].
  destruct (fs w !! p) as [[x|]|]; reflexivity.
Qed.

Ltac quiet :=
  cbv beta zeta;
  lazymatch goal with
  | |- keeps_sent (bind _ _) => apply keeps_bind; [|intros ?]
  | |- keeps_sent (lift _) => apply keeps_lift
  | |- keeps_sent (ret _) => apply keeps_ret
  | |- keeps_sent (open_read _) => apply keeps_open_read
  | |- keeps_sent (open_write _) => apply keeps_open_write
  | |- keeps_sent (file_write _ _) => apply keeps_file_write
  | |- keeps_sent (if ?b then _ else _) => destruct b
  | |- keeps_sent (fun w => (_, w)) => intros ?; reflexivity
  end.

Lemma keeps_read (args : value) : keeps_sent (read args).
Proof. unfold read. repeat quiet. Qed.

Lemma keeps_write (args : value) : keeps_sent (write args).
Proof. unfold write. repeat quiet. Qed.

Lemma keeps_edit (args : value) : keeps_sent (edit args).
Proof. unfold edit. repeat quiet. Qed.

Lemma keeps_glob (args : value) : keeps_sent (glob args).
Proof. unfold glob. repeat quiet. Qed.

Lemma keeps_grep (args : value) : keeps_sent (grep args).
Proof.
  unfold grep. repeat quiet. intros w. now rewrite all_hits_matches.
Qed.

Lemma keeps_bash (fuel : nat) (args : value) : keeps_sent (bash fuel args).
Proof.
  unfold bash. quiet; [quiet|]. intros w. unfold bind.
  destruct (popen a w) as [ch | e |]; try reflexivity.
  now destruct (bash_run fuel ch).
Qed.

Lemma keeps_run_tool (fuel : nat) (name : string) (args : value) :
  keeps_sent (run_tool fuel name args).
Proof.
  unfold run_tool, run_tool_in. apply keeps_try_except; [|intros e; apply keeps_ret].
  unfold TOOLS. cbn [find_tool].
  repeat (destruct (String.eqb _ name);
          [first [ apply keeps_read | apply keeps_write | apply keeps_edit
                 | apply keeps_glob | apply keeps_grep | apply keeps_bash ] |]).
  apply keeps_lift.
Qed.

End Quiet.

(** ** The agent loop *)

Section Loop.
Context {H : host}.
Variable fuel : nat.

Lemma is_str_text_not_call (v : value) :
  is_str v "text" = true -> is_str v "function_call" = false.
Proof.
  destruct v; try discriminate. cbn. intros Hs.
  apply String.eqb_eq in Hs as ->. reflexivity.
Qed.

(** [handle_outputs] keeps the function calls of a response, in order. *)
Lemma handle_outputs_calls (outs acc : list value) :
  Forall (fun o => well_formed_output o = true) outs ->
  handle_outputs_from acc outs = Return (acc ++ List.filter is_function_call outs).
Proof.
  revert acc; induction outs as [|o outs IH]; intros acc Hwf; cbn [handle_outputs_from List.filter].
  - now rewrite app_nil_r.
  - pose proof (Forall_inv Hwf) as Ho. pose proof (Forall_inv_tail Hwf) as Houts.
    cbv beta in Ho. destruct o as [| | | | | |d]; try discriminate.
    rewrite get_default. unfold is_function_call. cbn [output_type] in *.
    cbn [well_formed_output output_type] in Ho.
    destruct (is_str (default PNone (lookup d "type")) "text") eqn:Htext.
    + rewrite (is_str_text_not_call _ Htext). rewrite get_default.
      destruct (default (PStr EmptyString) (lookup d "text")); try discriminate.
      now apply IH.
    + destruct (is_str (default PNone (lookup d "type")) "function_call").
      * rewrite IH by exact Houts. now rewrite <- app_assoc.
      * now apply IH.
Qed.

(** A function call of a well-formed response is a record with a string
    for a name. *)
Lemma call_named (call : value) :
  well_formed_output call = true -> is_function_call call = true ->
  exists c name,
    call = PDict c /\ default (PStr EmptyString) (lookup c "name") = PStr name.
Proof.
  intros Hwf Hcall. destruct call as [| | | | | |c]; try discriminate.
  unfold is_function_call in Hcall. cbn [well_formed_output output_type] in *.
  destruct (is_str (default PNone (lookup c "type")) "text") eqn:Htext.
  { apply is_str_text_not_call in Htext. congruence. }
  unfold is_function_call in Hwf. cbn [output_type] in Hwf. rewrite Hcall in Hwf.
  destruct (default (PStr EmptyString) (lookup c "name")) as [| | | |name| |] eqn:Hname;
    try discriminate.
  now exists c, name.
Qed.

(** When the loop body comes back on a call, what it appends is the
    record of that call: its name, its id and a result. *)
Lemma run_call_record (call r : value) (w w' : world) :
  well_formed_output call = true -> is_function_call call = true ->
  run_call (run_tool fuel) call w = (Return r, w') ->
  exists result,
    r = function_result (field "name" (PStr EmptyString) call)
          (field "id" (PStr EmptyString) call) result.
Proof.
  intros Hwf Hcall. destruct (call_named call Hwf Hcall) as (c & name & -> & Hname).
  cbn [field]. rewrite Hname.
  destruct (normalize_tool_args (default (PDict []) (lookup c "arguments")))
    as [[args [err|]] | e |] eqn:Hnorm.
  - rewrite (run_call_rejected _ c name args err w Hname Hnorm).
    intros [= <- _]. now exists err.
  - rewrite (run_call_accepted _ c name args w Hname Hnorm).
    destruct (run_tool fuel name args w) as [[result | e |] w1]; try discriminate.
    intros [= <- _]. now exists result.
  - unfold run_call, bind, lift. rewrite !get_default, Hname, Hnorm. discriminate.
  - unfold run_call, bind, lift. rewrite !get_default, Hname, Hnorm. discriminate.
Qed.

Lemma run_calls_records (calls acc out : list value) (w w' : world) :
  Forall (fun c => well_formed_output c = true /\ is_function_call c = true) calls ->
  run_calls (run_tool fuel) acc calls w = (Return out, w') ->
  exists results, out = acc ++ results /\ records_of calls results.
Proof.
  revert acc w; induction calls as [|call calls IH]; intros acc w Hcalls; cbn [run_calls].
  - intros [= <- _]. exists []. split; [now rewrite app_nil_r | constructor].
  - pose proof (Forall_inv Hcalls) as [Hwf Hcall].
    pose proof (Forall_inv_tail Hcalls) as Hrest.
    unfold bind at 1.
    destruct (run_call (run_tool fuel) call w) as [[r | e |] w1] eqn:Hrun;
      try discriminate.
    destruct (run_call_record call r w w1 Hwf Hcall Hrun) as [result ->].
    intros Hruns. destruct (IH _ _ Hrest Hruns) as (results & -> & Hall).
    eexists (_ :: results). split; [now rewrite <- app_assoc|].
    constructor; [now exists result | exact Hall].
Qed.

(** The loop body comes back on a call that is answered. *)
Lemma run_call_answered (call : value) (w : world) :
  well_formed_output call = true -> is_function_call call = true ->
  answered fuel call ->
  exists r w', run_call (run_tool fuel) call w = (Return r, w').
Proof.
  intros Hwf Hcall (args & arg_error & Hnorm & Htool).
  destruct (call_named call Hwf Hcall) as (c & name & -> & Hname).
  cbn [field] in Hnorm, Htool.
  destruct arg_error as [err|].
  - rewrite (run_call_rejected _ c name args err w Hname Hnorm). eauto.
  - destruct (Htool eq_refl name w Hname) as (result & w' & Hrun).
    rewrite (run_call_accepted _ c name args w Hname Hnorm), Hrun. eauto.
Qed.

Lemma run_calls_answered (calls acc : list value) (w : world) :
  Forall (fun c => well_formed_output c = true /\ is_function_call c = true) calls ->
  Forall (answered fuel) calls ->
  exists out w', run_calls (run_tool fuel) acc calls w = (Return out, w').
Proof.
  revert acc w; induction calls as [|call calls IH]; intros acc w Hcalls Hans;
    cbn [run_calls]; [unfold ret; eauto|].
  pose proof (Forall_inv Hcalls) as [Hwf Hcall].
  destruct (run_call_answered call w Hwf Hcall (Forall_inv Hans)) as (r & w1 & Hrun).
  unfold bind at 1. rewrite Hrun.
  exact (IH _ w1 (Forall_inv_tail Hcalls) (Forall_inv_tail Hans)).
Qed.

(** Nothing is sent while the calls are run, however they end. *)
Lemma keeps_run_call (call : value) :
  keeps_sent (run_call (run_tool fuel) call).
Proof.
  unfold run_call.
  apply keeps_bind; [apply keeps_lift | intros tool_name].
  apply keeps_bind; [apply keeps_lift | intros raw_args].
  apply keeps_bind; [apply keeps_lift | intros name].
  apply keeps_bind; [apply keeps_lift | intros [tool_args arg_error]].
  apply keeps_bind.
  - destruct arg_error as [e|]; [destruct (negb _)|];
      first [apply keeps_ret | apply keeps_run_tool].
  - intros result. apply keeps_bind; [apply keeps_lift | intros call_id; apply keeps_ret].
Qed.

Lemma keeps_run_calls (calls acc : list value) :
  keeps_sent (run_calls (run_tool fuel) acc calls).
Proof.
  revert acc; induction calls as [|call calls IH]; intros acc; cbn [run_calls].
  - apply keeps_ret.
  - apply keeps_bind; [apply keeps_run_call | intros r; apply IH].
Qed.

Lemma call_api_sent (input_data : value) (system_prompt : string) (prev : value)
    (w : world) :
  GEMINI_API_KEY <> EmptyString ->
  sent (snd (call_api fuel input_data system_prompt prev w))
  = sent w ++ [PDict (payload fuel input_data system_prompt prev)].
Proof.
  intros Hkey. unfold call_api.
  destruct (String.eqb_spec GEMINI_API_KEY EmptyString) as [Heq | _]; [congruence|].
  destruct (urlopen _); reflexivity.
Qed.

Lemma payload_input (input_data : value) (system_prompt : string) (prev : value) :
  lookup (payload fuel input_data system_prompt prev) "input" = Some input_data.
Proof. unfold payload. destruct (truthy prev); reflexivity. Qed.

(** What one pass of the loop sends, by the way the calls end *)
Lemma agent_step_sends (system_prompt : string) (i : list (string * value))
    (prev : value) (outs : list value) (w : world) :
  GEMINI_API_KEY <> EmptyString ->
  lookup i "outputs" = Some (PList outs) ->
  Forall (fun o => well_formed_output o = true) outs ->
  List.filter is_function_call outs <> [] ->
  match run_calls (run_tool fuel) [] (List.filter is_function_call outs) w with
  | (Return results, w1) =>
      sent (snd (agent_step fuel system_prompt (PDict i) prev w))
      = sent w ++ [PDict (payload fuel (PList results) system_prompt prev)]
  | _ => sent (snd (agent_step fuel system_prompt (PDict i) prev w)) = sent w
  end.
Proof.
  intros Hkey Houts Hwf Hne.
  pose proof (keeps_run_calls (List.filter is_function_call outs) [] w) as Hkeep.
  unfold agent_step, bind, lift. rewrite get_default, Houts.
  change (default (PList []) (Some (PList outs))) with (PList outs).
  unfold handle_outputs. cbn [iterate]. rewrite handle_outputs_calls by exact Hwf.
  rewrite app_nil_l.
  destruct (List.filter is_function_call outs) as [|c calls]; [congruence|].
  destruct (run_calls (run_tool fuel) [] (c :: calls) w) as [[results | e |] w1];
    cbn [snd] in *; try exact Hkeep.
  pose proof (call_api_sent (PList results) system_prompt prev w1 Hkey) as Hsend.
  destruct (call_api fuel (PList results) system_prompt prev w1) as [[r | e |] w2];
    cbn [snd] in *; rewrite <- Hkeep; try exact Hsend.
  destruct (get r "id" prev); exact Hsend.
Qed.

(** C2.  For a response whose outputs are well formed and hold [n >= 1]
    function calls, the loop runs the calls in order and sends nothing
    meanwhile.  If every call is answered (its arguments are decoded or
    rejected, its tool comes back), the loop makes [n] result records,
    the i-th with the name and the id of the i-th call, and then sends
    one request, whose input is the list of these [n] records.  And
    whatever the calls do, the loop sends either that one request with
    the [n] records, after the last call, or nothing at all: no request
    leaves with a part of the results. *)
Theorem tool_results_batched (system_prompt : string) (i : list (string * value))
    (prev : value) (outs : list value) (w : world) :
  GEMINI_API_KEY <> EmptyString ->
  lookup i "outputs" = Some (PList outs) ->
  Forall (fun o => well_formed_output o = true) outs ->
  List.filter is_function_call outs <> [] ->
  let calls := List.filter is_function_call outs in
  let after := snd (agent_step fuel system_prompt (PDict i) prev w) in
  handle_outputs (PList outs) = Return calls
  /\ (Forall (answered fuel) calls ->
      exists results w1,
        run_calls (run_tool fuel) [] calls w = (Return results, w1)
        /\ length results = length calls
        /\ records_of calls results
        /\ sent w1 = sent w
        /\ sent after
           = sent w ++ [PDict (payload fuel (PList results) system_prompt prev)]
        /\ lookup (payload fuel (PList results) system_prompt prev) "input"
           = Some (PList results))
  /\ match fst (run_calls (run_tool fuel) [] calls w) with
     | Return results =>
         length results = length calls
         /\ records_of calls results
         /\ sent after
            = sent w ++ [PDict (payload fuel (PList results) system_prompt prev)]
     | _ => sent after = sent w
     end.
Proof.
  intros Hkey Houts Hwf Hne calls after.
  assert (Hcalls : Forall (fun c => well_formed_output c = true
                                    /\ is_function_call c = true) calls).
  { apply List.Forall_forall. intros c Hc. apply filter_In in Hc as [Hin Hc].
    rewrite List.Forall_forall in Hwf. auto. }
  pose proof (agent_step_sends system_prompt i prev outs w Hkey Houts Hwf Hne) as Hsends.
  fold calls in Hsends. fold after in Hsends.
  pose proof (keeps_run_calls calls [] w) as Hkeep.
  split.
  { unfold handle_outputs. cbn [iterate]. now rewrite handle_outputs_calls. }
  split.
  - intros Hans.
    destruct (run_calls_answered calls [] w Hcalls Hans) as (results & w1 & Hrun).
    rewrite Hrun in Hsends, Hkeep. cbn [snd] in Hkeep.
    destruct (run_calls_records calls [] results w w1 Hcalls Hrun)
      as (results' & Heq & Hall).
    rewrite app_nil_l in Heq. subst results'.
    exists results, w1. split; [exact Hrun|].
    split; [symmetry; exact (Forall2_length _ _ _ Hall)|].
    split; [exact Hall|]. split; [exact Hkeep|].
    split; [exact Hsends | apply payload_input].
  - destruct (run_calls (run_tool fuel) [] calls w) as [[results | e |] w1] eqn:Hrun;
      cbn [fst]; try exact Hsends.
    destruct (run_calls_records calls [] results w w1 Hcalls Hrun)
      as (results' & Heq & Hall).
    rewrite app_nil_l in Heq. subst results'.
    split; [symmetry; exact (Forall2_length _ _ _ Hall)|].
    split; [exact Hall | exact Hsends].
Qed.

End Loop.

(** ** [bash] *)

Section Bash.

Lemma poll_killed (p : popen_state) : p_killed (snd (poll p)) = p_killed p.
Proof.
  unfold poll. destruct (p_returncode p); [reflexivity|].
  destruct (ch_exit (p_child p)) as [[t status]|]; [|reflexivity].
  now destruct (_ <=? _)%Z.
Qed.

Lemma poll_exited (p p' : popen_state) (rc : Z) :
  poll p = (Some rc, p') -> p_returncode p' <> None.
Proof.
  unfold poll. destruct (p_returncode p) eqn:Hrc.
  - intros [= _ <-]. congruence.
  - destruct (ch_exit (p_child p)) as [[t status]|]; [|discriminate].
    destruct (_ <=? _)%Z; [|discriminate]. intros [= _ <-]. discriminate.
Qed.

Lemma readline_killed (p : popen_state) : p_killed (snd (readline p)) = p_killed p.
Proof.
  unfold readline. destruct (p_pending p) as [|[t line] rest]; [|reflexivity].
  now destruct (ch_eof (p_child p)).
Qed.

(** The loop leaves through [break] only, and [break] needs the exit
    status; [kill] is not called inside the loop. *)
Lemma read_loop_exit (fuel : nat) (p p' : popen_state) (out out' : list string) :
  read_loop fuel p out = (Return tt, (p', out')) ->
  p_returncode p' <> None /\ p_killed p' = p_killed p.
Proof.
  revert p out; induction fuel as [|fuel IH]; intros p out; cbn [read_loop];
    [discriminate|].
  pose proof (readline_killed p) as Hk1.
  destruct (readline p) as [[line | e |] p1]; try discriminate. cbn [snd] in Hk1.
  destruct line as [|c line].
  - pose proof (poll_killed p1) as Hk2.
    destruct (poll p1) as [[rc|] p2] eqn:Hpoll; cbn [snd] in Hk2.
    + intros [= <- _]. split; [exact (poll_exited _ _ _ Hpoll) | congruence].
    + intros Hloop. apply IH in Hloop as [Hrc Hk]. split; [exact Hrc | congruence].
  - intros Hloop. apply IH in Hloop as [Hrc Hk]. split; [exact Hrc | congruence].
Qed.

(** X6.  The loop of [bash] is left only when [poll] has seen the child
    exit, so [proc.wait(timeout=30)] returns at once and the handler of
    [TimeoutExpired] never runs: whenever [bash] returns, the child has
    exited by itself, it was not killed, and the result is made of the
    lines read and nothing else. *)
Lemma bash_run_never_times_out (fuel : nat) (ch : child) (s : string) (p : popen_state) :
  bash_run fuel ch = (Return s, p) ->
  p_killed p = false
  /\ p_returncode p <> None
  /\ exists out,
       read_loop fuel (mk_proc ch (ch_lines ch) 0 None false) [] = (Return tt, (p, out))
       /\ s = str_or (strip (join EmptyString out)) "(empty)".
Proof.
  unfold bash_run, bash_try.
  destruct (read_loop fuel _ []) as [[[] | e |] [p1 out]] eqn:Hloop.
  - destruct (read_loop_exit _ _ _ _ _ Hloop) as [Hrc Hk]. cbn in Hk.
    unfold wait. destruct (p_returncode p1) as [rc|] eqn:Hrc1; [|congruence].
    intros [= <- <-]. split; [exact Hk|]. split; [congruence|].
    exists out. split; reflexivity.
  - now apply read_loop_no_raise in Hloop.
  - discriminate.
Qed.

(** A child that writes nothing and exits after [ms] milliseconds: [bash]
    waits until then, whatever [ms] is, does not kill it, and returns
    [(empty)]. *)
Lemma bash_run_sleeper (fuel : nat) (ms : Z) :
  bash_run (S fuel) (sleeper ms)
  = (Return "(empty)", mk_proc (sleeper ms) [] (Z.max 0 ms + 1) (Some 0%Z) false).
Proof.
  unfold bash_run, bash_try, sleeper. cbn [read_loop readline poll p_pending
    p_child ch_eof ch_exit ch_lines p_returncode p_clock p_killed].
  assert (Hle : (ms <=? Z.max 0 ms + 1)%Z = true) by (apply Z.leb_le; lia).
  rewrite Hle. reflexivity.
Qed.

End Bash.

(** C6, at a command that sleeps for 60 seconds: [bash] comes back after
    60 seconds and not after 30, the child was not killed, and the
    result is [(empty)], without the marker. *)
Theorem bash_sleep_60_not_timed_out :
  bash_run 3 (sleeper 60000)
  = (Return "(empty)", mk_proc (sleeper 60000) [] 60001 (Some 0%Z) false)
  /\ (exists w',
        run_tool (H := Sample.sample_host) 3 "bash" (PDict [("cmd", PStr "sleep 60")])
          (one_file "f.txt" text_once) = (Return "(empty)", w')
        /\ now w' = 60001%Z)
  /\ contains "(empty)" "(timed out after 30s)" = false.
Proof.
  split; [apply (bash_run_sleeper 2 60000)|].
  split; [|reflexivity].
  eexists. split; [vm_compute; reflexivity | reflexivity].
Qed.

(** ** The sample host *)

Lemma sample_library_raises : library_raises_exceptions Sample.sample_host.
Proof.
  repeat split; cbn.
  - intros pat. unfold Sample.word_compile. now destruct (forallb _ _).
  - intros [] w; try reflexivity. unfold Sample.shell.
    destruct (startswith s "sleep ").
    + now destruct (Sample.read_digits 0 (sdrop 6 s)).
    + now destruct (startswith s "echo ").
Qed.

Lemma sample_library_returns : library_returns Sample.sample_host 3.
Proof.
  repeat split.
  - intros pat. change (comes_back (Sample.word_compile pat)).
    unfold Sample.word_compile. now destruct (forallb _ _).
  - intros cmd w. change (comes_back (Sample.shell cmd w)).
    destruct cmd; try exact I. unfold Sample.shell.
    destruct (startswith s "sleep ").
    + now destruct (Sample.read_digits 0 (sdrop 6 s)).
    + now destruct (startswith s "echo ").
  - intros cmd w ch. change (Sample.shell cmd w = Return ch -> comes_back (fst (bash_run 3 ch))).
    destruct cmd; try discriminate. unfold Sample.shell.
    destruct (startswith s "sleep ").
    + destruct (Sample.read_digits 0 (sdrop 6 s)) as [secs rest].
      intros [= <-]. fold (sleeper (1000 * secs)).
      now rewrite (bash_run_sleeper 2).
    + destruct (startswith s "echo ").
      * generalize (sdrop 5 s). intros text [= <-]. destruct text; exact I.
      * intros [= <-]. exact I.
Qed.

(** ** [read] *)

Section Read.
Context {H : host}.

Lemma slice_forward {A} (l : list A) (offset limit : nat) :
  slice l (Z.of_nat offset) (Z.of_nat offset + Z.of_nat limit)
  = take limit (drop offset l).
Proof.
  unfold slice, clamp.
  destruct (Z.ltb_spec (Z.of_nat offset) 0); [lia|].
  destruct (Z.ltb_spec (Z.of_nat offset + Z.of_nat limit) 0); [lia|].
  destruct (Nat.le_gt_cases offset (length l)) as [Hle | Hgt].
  - replace (Z.to_nat (Z.min (Z.of_nat offset) (Z.of_nat (length l)))) with offset by lia.
    destruct (Nat.le_gt_cases limit (length l - offset)) as [Hl | Hl].
    + f_equal. lia.
    + rewrite !take_ge; [reflexivity | rewrite length_drop; lia | rewrite length_drop; lia].
  - rewrite !drop_ge by lia. now rewrite !take_nil.
Qed.

Lemma enumerate_imap {A B} (f : Z -> A -> B) (start : Z) (l : list A) :
  map (fun '(idx, x) => f idx x) (enumerate start l)
  = imap (fun i x => f (start + Z.of_nat i)%Z x) l.
Proof.
  revert start f; induction l as [|x l IH]; intros start f; [reflexivity|].
  cbn [enumerate map imap]. rewrite Z.add_0_r. f_equal.
  rewrite IH. apply imap_ext. intros i y _. cbn. f_equal. lia.
Qed.

(** From an offset and with a limit that are not negative, [read] shows
    the lines [offset], [offset + 1], ... of the file (counting from 0),
    [limit] of them at most, each behind its position counted from 1. *)
Lemma read_numbered (w : world) (d : list (string * value)) (path : string)
    (f : file) (offset limit : nat) :
  lookup d "path" = Some (PStr path) ->
  fs w !! path = Some (File f) ->
  f_readable f = true -> f_text f = true ->
  let lines := readlines (universal_newlines (f_data f)) in
  default (PInt 0) (lookup d "offset") = PInt (Z.of_nat offset) ->
  default (PInt (Z.of_nat (length lines))) (lookup d "limit") = PInt (Z.of_nat limit) ->
  read (PDict d) w
  = (Return (join EmptyString
               (imap (fun i line =>
                        fmt4 (Z.of_nat (offset + i) + 1) +:+ "| " +:+ line)
                     (take limit (drop offset lines)))), w).
Proof.
  intros Hpath Hfile Hr Ht lines Hoff Hlim.
  unfold read, bind, lift, getitem, open_read, ret.
  rewrite Hpath, Hfile, Hr, Ht. cbn [negb]. fold lines.
  rewrite !get_default, Hoff, Hlim. cbn [as_index as_int].
  rewrite slice_forward.
  rewrite (enumerate_imap (fun idx line => fmt4 (Z.of_nat offset + idx + 1) +:+ "| " +:+ line)).
  do 3 f_equal. apply imap_ext. intros i line _. cbn. do 2 f_equal. lia.
Qed.

End Read.

(** C9, at a negative offset: of the three lines of the file, [read]
    with offset -2 and limit 1 shows the second, and numbers it -1. *)
Theorem read_negative_offset :
  readlines three_lines = ["one" +:+ nl; "two" +:+ nl; "three" +:+ nl]
  /\ read (H := Sample.sample_host)
       (PDict [("path", PStr "f.txt"); ("offset", PInt (-2)); ("limit", PInt 1)])
       (one_file "f.txt" three_lines)
     = (Return ("  -1| two" +:+ nl), one_file "f.txt" three_lines)
  /\ fmt4 2 +:+ "| two" +:+ nl <> "  -1| two" +:+ nl.
Proof.
  split; [reflexivity|]. split; [vm_compute; reflexivity | discriminate].
Qed.

(** ** The statements at concrete inputs *)

Lemma run_tool_never_raises_witness :
  library_raises_exceptions Sample.sample_host
  /\ run_tool (H := Sample.sample_host) 3 "read"
       (PDict [("path", PStr "missing.txt")]) (one_file "f.txt" text_once)
     = (Return ("error: " +:+ "[Errno 2] No such file or directory: 'missing.txt'"),
        one_file "f.txt" text_once).
Proof.
  split; [exact sample_library_raises|].
  exact (proj2 (run_tool_never_raises (H := Sample.sample_host) 3 "read"
                  (PDict [("path", PStr "missing.txt")]) (one_file "f.txt" text_once)
                  sample_library_raises)).
Defined.

Lemma read_call_answered : answered (H := Sample.sample_host) 3 read_call.
Proof.
  exists (PDict [("path", PStr "f.txt")]), None. split; [reflexivity|].
  intros _ name w _.
  exact (run_tool_returns (H := Sample.sample_host) 3 name _ w
           sample_library_raises sample_library_returns).
Qed.

Lemma tool_results_batched_witness :
  exists results w1,
    run_calls (H := Sample.sample_host) (run_tool (H := Sample.sample_host) 3)
      [] [read_call]
      (one_file "f.txt" three_lines) = (Return results, w1)
    /\ length results = 1
    /\ sent (snd (agent_step (H := Sample.sample_host) 3 "cwd: /work"
                    (PDict response) (PStr "i1") (one_file "f.txt" three_lines)))
       = [PDict (payload (H := Sample.sample_host) 3 (PList results) "cwd: /work"
                   (PStr "i1"))].
Proof.
  destruct (tool_results_batched (H := Sample.sample_host) 3
              "cwd: /work" response (PStr "i1")
              [PDict [("type", PStr "text"); ("text", PStr "reading")]; read_call]
              (one_file "f.txt" three_lines)
              ltac:(discriminate) eq_refl
              ltac:(repeat constructor) ltac:(discriminate))
    as (_ & Hbatch & _).
  destruct (Hbatch (List.Forall_cons _ _ _ read_call_answered (List.Forall_nil _)))
    as (results & w1 & Hrun & Hlen & _ & _ & Hsent & _).
  exists results, w1. split; [exact Hrun|]. split; [exact Hlen | exact Hsent].
Defined.


Lemma encoded_non_mapping_accepted_witness :
  json_loads (host := Sample.sample_host) "[1,2]" = Return (PList [PInt 1; PInt 2])
  /\ normalize_tool_args (H := Sample.sample_host) (PStr "[1,2]")
     = Return (PList [PInt 1; PInt 2], None)
  /\ normalize_tool_args (H := Sample.sample_host) (PList [PInt 1; PInt 2])
     = Return (PNone, Some ("error: tool arguments must be object, got " +:+ "list")).
Proof.
  split; [reflexivity|].
  destruct (encoded_non_mapping_accepted (H := Sample.sample_host) "[1,2]"
              (PList [PInt 1; PInt 2]) eq_refl eq_refl)
    as (_ & Hstr & Hraw & _).
  split; [exact Hstr | exact Hraw].
Defined.

Lemma grep_result_witness :
  exists result,
    grep (H := Sample.sample_host) (PDict [("pat", PStr "two")]) tree_with_binary
    = (Return result, tree_with_binary)
    /\ result = "./a.txt:2:two" +:+ nl +:+ "./big.bin:1:two" +:+ nl +:+ "./b.txt:1:two"
    /\ line_feeds result < 50.
Proof.
  destruct (grep_result (H := Sample.sample_host) tree_with_binary [("pat", PStr "two")]
              "two" "." "two" eq_refl eq_refl eq_refl)
    as (hits & result & Hhits & Hrun & _ & Hsome & _ & Hlines).
  exists result. split; [exact Hrun|]. split.
  - rewrite Hsome; rewrite Hhits; [vm_compute; reflexivity | vm_compute; discriminate].
  - apply Hlines. vm_compute. repeat constructor.
Defined.


(** * Further properties of the tools *)

(** ** [write] *)

Section Write.
Context {H : host}.


(** X2.  [write] opens the file before it looks for the content: called
    without [content] on a file that can be written, it leaves the file
    empty, and [run_tool] reports the missing key. *)
Theorem write_without_content_empties (fuel : nat) (w : world)
    (d : list (string * value)) (path : string) (f : file) :
  lookup d "path" = Some (PStr path) ->
  lookup d "content" = None ->
  fs w !! path = Some (File f) ->
  f_writable f = true ->
  exists w',
    run_tool fuel "write" (PDict d) w = (Return ("error: " +:+ repr_str "content"), w')
    /\ stored w' path = Some EmptyString
    /\ (forall p, p <> path -> fs w' !! p = fs w !! p).
Proof.
  intros Hpath Hcontent Hfile Hw.
  unfold run_tool, run_tool_in, try_except. cbn [TOOLS find_tool String.eqb Ascii.eqb
    Bool.eqb].
  unfold write, bind, lift, getitem, ret, open_write. rewrite Hpath, Hfile, Hw, Hcontent.
  cbn [raise_ exn_cls issubclass exn_class_eqb base_class orb exn_str].
  eexists. split; [reflexivity|]. unfold stored. cbn [fs].
  rewrite lookup_insert_eq. split; [reflexivity|].
  intros p Hp. now rewrite lookup_insert_ne.
Qed.

End Write.


Lemma write_without_content_empties_witness :
  exists w',
    run_tool (H := Sample.sample_host) 3 "write" (PDict [("path", PStr "f.txt")])
      (one_file "f.txt" text_once) = (Return "error: 'content'", w')
    /\ stored w' "f.txt" = Some EmptyString.
Proof.
  destruct (write_without_content_empties (H := Sample.sample_host) 3
              (one_file "f.txt" text_once) [("path", PStr "f.txt")] "f.txt"
              (mk_file text_once 0 true true true) eq_refl eq_refl eq_refl eq_refl)
    as (w' & Hrun & Hstored & _).
  exists w'. split; [exact Hrun | exact Hstored].
Defined.

(** ** [read] and [edit] *)

Section ReadMore.
Context {H : host}.

Lemma slice_past {A} (l : list A) (a b : Z) :
  (Z.of_nat (length l) <= a)%Z -> slice l a b = [].
Proof.
  intros Ha. unfold slice.
  assert (Hlo : clamp (Z.of_nat (length l)) a = Z.of_nat (length l)).
  { unfold clamp. destruct (Z.ltb_spec a 0); lia. }
  rewrite Hlo, Nat2Z.id, drop_ge by reflexivity. apply take_nil.
Qed.

(** X4.  Without [offset] and [limit], [read] shows every line of the file,
    numbered from 1; from an offset at or behind the last line it shows
    nothing, and it does not fail, whatever the limit is: left out, or
    any integer. *)
Theorem read_defaults_and_end (w : world) (d : list (string * value)) (path : string)
    (f : file) :
  lookup d "path" = Some (PStr path) ->
  fs w !! path = Some (File f) ->
  f_readable f = true -> f_text f = true ->
  let lines := readlines (universal_newlines (f_data f)) in
  (lookup d "offset" = None -> lookup d "limit" = None ->
   read (PDict d) w
   = (Return (join EmptyString
                (imap (fun i line => fmt4 (Z.of_nat i + 1) +:+ "| " +:+ line) lines)),
      w))
  /\
  (forall (offset : nat) (limit : Z),
      lookup d "offset" = Some (PInt (Z.of_nat offset)) ->
      as_int (default (PInt (Z.of_nat (length lines))) (lookup d "limit")) = Some limit ->
      length lines <= offset ->
      read (PDict d) w = (Return EmptyString, w)).
Proof.
  intros Hpath Hfile Hr Ht lines. split.
  - intros Hoff Hlim.
    rewrite (read_numbered w d path f 0 (length lines) Hpath Hfile Hr Ht)
      by (rewrite ?Hoff, ?Hlim; reflexivity).
    fold lines. rewrite drop_0, firstn_all. reflexivity.
  - intros offset limit Hoff Hlim Hlen.
    assert (Hoff' : default (PInt 0) (lookup d "offset") = PInt (Z.of_nat offset))
      by now rewrite Hoff.
    unfold read, bind, lift, getitem, open_read, ret.
    rewrite Hpath, Hfile, Hr, Ht. cbn [negb]. fold lines.
    rewrite !get_default, Hoff'. unfold as_index. rewrite Hlim. cbn [as_int].
    rewrite slice_past by lia. reflexivity.
Qed.

End ReadMore.

Lemma replace_same (s old : string) (limit : option nat) :
  limit = None \/ limit = Some 1 ->
  replace s old old limit = s.
Proof.
  intros [-> | ->].
  - destruct (replace_all s old old) as (segs & _ & Hs & Hr & _). congruence.
  - destruct (contains s old) eqn:Hc.
    + destruct (replace_first s old old Hc) as (pre & post & Hs & Hr & _). congruence.
    + destruct old as [|a o]; [now rewrite contains_nil in Hc|].
      cbn [replace]. rewrite replace_from_count0; [now destruct s|].
      pose proof (count_from_contains a o s 0) as Hcount.
      assert (Hs0 : sdrop 0 s = s) by now destruct s.
      rewrite Hs0, Hc in Hcount.
      destruct (count_from 0 s (String a o)); [reflexivity|].
      assert (true = false) by (symmetry; apply Hcount; lia). discriminate.
Qed.

Section EditMore.
Context {H : host}.

(** X5.  Replacing a string by itself changes no character: when [edit] is
    given [new] equal to [old] and goes through, it returns [ok] and the
    file holds the text that was read. *)
Theorem edit_same_text (w : world) (d : list (string * value)) (path old : string)
    (f : file) :
  lookup d "path" = Some (PStr path) ->
  lookup d "old" = Some (PStr old) ->
  lookup d "new" = Some (PStr old) ->
  fs w !! path = Some (File f) ->
  f_readable f = true -> f_text f = true -> f_writable f = true ->
  let text := universal_newlines (f_data f) in
  contains text old = true ->
  truthy (default PNone (lookup d "all")) = true \/ PyStr.count text old <= 1 ->
  exists w',
    edit (PDict d) w = (Return "ok", w')
    /\ stored w' path = Some text
    /\ (forall p, p <> path -> fs w' !! p = fs w !! p).
Proof.
  intros Hpath Hold Hnew Hfile Hr Ht Hw text Hc Hgate.
  eexists. split; [exact (edit_done w d path old old f Hpath Hold Hnew Hfile Hr Ht Hw Hc Hgate)|].
  split; [|intros p Hp; now apply written_elsewhere].
  rewrite written_stored. f_equal. fold text.
  destruct (truthy _); apply replace_same; auto.
Qed.

End EditMore.

Lemma read_numbered_witness :
  read (H := Sample.sample_host)
    (PDict [("path", PStr "f.txt"); ("offset", PInt 1); ("limit", PInt 1)])
    (one_file "f.txt" three_lines)
  = (Return ("   2| two" +:+ nl), one_file "f.txt" three_lines).
Proof.
  exact (read_numbered (H := Sample.sample_host) (one_file "f.txt" three_lines)
           [("path", PStr "f.txt"); ("offset", PInt 1); ("limit", PInt 1)]
           "f.txt" (mk_file three_lines 0 true true true) 1 1
           eq_refl eq_refl eq_refl eq_refl eq_refl eq_refl).
Defined.

Lemma read_defaults_and_end_witness :
  read (H := Sample.sample_host) (PDict [("path", PStr "f.txt")])
    (one_file "f.txt" three_lines)
  = (Return ("   1| one" +:+ nl +:+ "   2| two" +:+ nl +:+ "   3| three" +:+ nl),
     one_file "f.txt" three_lines)
  /\ read (H := Sample.sample_host) (PDict [("path", PStr "f.txt"); ("offset", PInt 7)])
       (one_file "f.txt" three_lines)
     = (Return EmptyString, one_file "f.txt" three_lines).
Proof.
  split.
  - exact (proj1 (read_defaults_and_end (H := Sample.sample_host)
                    (one_file "f.txt" three_lines) [("path", PStr "f.txt")]
                    "f.txt" (mk_file three_lines 0 true true true)
                    eq_refl eq_refl eq_refl eq_refl) eq_refl eq_refl).
  - exact (proj2 (read_defaults_and_end (H := Sample.sample_host)
                    (one_file "f.txt" three_lines)
                    [("path", PStr "f.txt"); ("offset", PInt 7)]
                    "f.txt" (mk_file three_lines 0 true true true)
                    eq_refl eq_refl eq_refl eq_refl)
             7 3%Z eq_refl eq_refl ltac:(vm_compute; lia)).
Defined.

Lemma edit_same_text_witness :
  exists w',
    edit (H := Sample.sample_host) (PDict (edit_args "two" "two"))
      (one_file "f.txt" text_once) = (Return "ok", w')
    /\ stored w' "f.txt" = Some text_once.
Proof.
  destruct (edit_same_text (H := Sample.sample_host) (one_file "f.txt" text_once)
              (edit_args "two" "two") "f.txt" "two"
              (mk_file text_once 0 true true true)
              eq_refl eq_refl eq_refl eq_refl eq_refl eq_refl eq_refl eq_refl
              (or_intror (le_n 1)))
    as (w' & Hrun & Hstored & _).
  exists w'. split; [exact Hrun | exact Hstored].
Defined.

(** ** [bash] *)

Lemma str_or_not_empty (x y : string) : y <> EmptyString -> str_or x y <> EmptyString.
Proof. destruct x; [auto | discriminate]. Qed.

Lemma bash_run_returns_lines (fuel : nat) (ch : child) (s : string) (p : popen_state) :
  bash_run fuel ch = (Return s, p) ->
  exists out, s = str_or (strip (join EmptyString out)) "(empty)".
Proof.
  unfold bash_run.
  destruct (bash_try fuel _) as [[[] | e |] [p1 out]].
  - intros [= <- _]. now exists out.
  - destruct (issubclass _ _); [|discriminate]. intros [= <- _]. now eexists.
  - discriminate.
Qed.

Section BashMore.
Context {H : host}.

(** X7.  What [bash] returns is never the empty string. *)
Theorem bash_result_not_empty (fuel : nat) (args : value) (w w' : world) (s : string) :
  bash fuel args w = (Return s, w') -> s <> EmptyString.
Proof.
  unfold bash, bind, lift.
  destruct (getitem args "cmd") as [cmd | e |]; try discriminate.
  destruct (popen cmd w) as [ch | e |]; try discriminate.
  destruct (bash_run fuel ch) as [r p] eqn:Hrun. intros [= -> _].
  destruct (bash_run_returns_lines fuel ch s p Hrun) as [out ->].
  apply str_or_not_empty. discriminate.
Qed.

End BashMore.

(** The loop reads every line that is pending and then polls until the
    child has exited, provided there is fuel for that many rounds. *)
Lemma read_loop_drains (eof exit_time status : Z) (fuel : nat) (p : popen_state)
    (out : list string) :
  p_returncode p = None ->
  ch_eof (p_child p) = Some eof ->
  ch_exit (p_child p) = Some (exit_time, status) ->
  Forall (fun tl => snd tl <> EmptyString) (p_pending p) ->
  length (p_pending p) + Z.to_nat (exit_time - p_clock p) + 1 <= fuel ->
  exists p',
    read_loop fuel p out = (Return tt, (p', out ++ map snd (p_pending p)))
    /\ p_returncode p' = Some status
    /\ p_killed p' = p_killed p.
Proof.
  revert p out; induction fuel as [|fuel IH]; intros p out Hrc Heof Hexit Hlines Hfuel;
    [lia|].
  cbn [read_loop]. unfold readline.
  destruct (p_pending p) as [|[t line] rest] eqn:Hpending.
  - rewrite Heof. unfold poll.
    cbn [p_returncode p_clock p_child p_pending p_killed]. rewrite Hrc, Hexit.
    destruct (Z.leb_spec exit_time (Z.max (p_clock p) eof + 1)) as [Hle | Hgt].
    + eexists. rewrite app_nil_r. repeat split.
    + destruct (IH (mk_proc (p_child p) [] (Z.max (p_clock p) eof + 1) None (p_killed p)) out)
        as (p' & Hloop & Hrc' & Hk); cbn; auto; [cbn in Hfuel; lia|].
      exists p'. cbn in Hloop. now rewrite app_nil_r in *.
  - pose proof (Forall_inv Hlines) as Hline. cbn in Hline.
    destruct line as [|c line]; [congruence|].
    destruct (IH (mk_proc (p_child p) rest (Z.max (p_clock p) t) (p_returncode p) (p_killed p))
                 (out ++ [String c line]))
      as (p' & Hloop & Hrc' & Hk); cbn; auto.
    + exact (Forall_inv_tail Hlines).
    + cbn in Hfuel. lia.
    + exists p'. cbn in Hloop. rewrite <- app_assoc in Hloop. now split.
Qed.

(** X8.  For a child that writes its lines, closes its output and exits,
    [bash], given fuel for one round per line and per tick until the
    exit, returns the lines put together and stripped, or [(empty)] if
    nothing is left; the child was not killed. *)
Theorem bash_returns_output (fuel : nat) (ch : child) (eof exit_time status : Z) :
  ch_eof ch = Some eof ->
  ch_exit ch = Some (exit_time, status) ->
  Forall (fun tl => snd tl <> EmptyString) (ch_lines ch) ->
  length (ch_lines ch) + Z.to_nat exit_time + 1 <= fuel ->
  exists p,
    bash_run fuel ch
    = (Return (str_or (strip (join EmptyString (map snd (ch_lines ch)))) "(empty)"), p)
    /\ p_returncode p = Some status
    /\ p_killed p = false.
Proof.
  intros Heof Hexit Hlines Hfuel.
  destruct (read_loop_drains eof exit_time status fuel
              (mk_proc ch (ch_lines ch) 0 None false) [])
    as (p & Hloop & Hrc & Hk); cbn; auto.
  { rewrite Z.sub_0_r. exact Hfuel. }
  exists p. unfold bash_run, bash_try. cbn in Hloop. rewrite Hloop.
  unfold wait. rewrite Hrc. repeat split; assumption.
Qed.

Lemma bash_run_never_times_out_witness :
  bash_run 3 (sleeper 60000)
  = (Return "(empty)", mk_proc (sleeper 60000) [] 60001 (Some 0%Z) false)
  /\ p_killed (mk_proc (sleeper 60000) [] 60001 (Some 0%Z) false) = false.
Proof.
  split; [reflexivity|].
  exact (proj1 (bash_run_never_times_out 3 (sleeper 60000) "(empty)"
                  (mk_proc (sleeper 60000) [] 60001 (Some 0%Z) false) eq_refl)).
Defined.

Lemma bash_result_not_empty_witness :
  bash (H := Sample.sample_host) 3 (PDict [("cmd", PStr "echo hi")])
    (one_file "f.txt" text_once)
  = (Return "hi", mk_world (fs (one_file "f.txt" text_once)) 3 [])
  /\ ("hi" : string) <> EmptyString.
Proof.
  split; [reflexivity|].
  exact (bash_result_not_empty (H := Sample.sample_host) 3
           (PDict [("cmd", PStr "echo hi")]) (one_file "f.txt" text_once)
           (mk_world (fs (one_file "f.txt" text_once)) 3 []) "hi" eq_refl).
Defined.

Lemma bash_returns_output_witness :
  exists p,
    bash_run 5 (mk_child [(1%Z, "hi" +:+ nl)] (Some 2%Z) (Some (2%Z, 0%Z)) id)
    = (Return "hi", p)
    /\ p_killed p = false.
Proof.
  destruct (bash_returns_output 5 (mk_child [(1%Z, "hi" +:+ nl)] (Some 2%Z) (Some (2%Z, 0%Z)) id)
              2 2 0 eq_refl eq_refl)
    as (p & Hrun & _ & Hk).
  - repeat constructor. discriminate.
  - cbn. lia.
  - exists p. split; [exact Hrun | exact Hk].
Defined.

(** * Further properties of the agent loop *)

Section Requests.
Context {H : host}.

(** X11.  Without an API key [call_api] raises before anything is sent.  With
    one, it sends exactly one request, which carries the input, the
    system prompt, the model and the tool schema, and carries the
    continuation token exactly when the token is truthy. *)
Theorem call_api_request (fuel : nat) (input_data : value) (prompt : string)
    (prev : value) (w : world) :
  (GEMINI_API_KEY = EmptyString ->
   call_api fuel input_data prompt prev w
   = (raise_ RuntimeError "Missing GEMINI_API_KEY", w))
  /\
  (GEMINI_API_KEY <> EmptyString ->
   let body := payload fuel input_data prompt prev in
   sent (snd (call_api fuel input_data prompt prev w)) = sent w ++ [PDict body]
   /\ fs (snd (call_api fuel input_data prompt prev w)) = fs w
   /\ lookup body "model" = Some (PStr MODEL)
   /\ lookup body "input" = Some input_data
   /\ lookup body "tools" = Some (make_schema fuel)
   /\ lookup body "system_instruction" = Some (PStr prompt)
   /\ lookup body "previous_interaction_id" = (if truthy prev then Some prev else None)).
Proof.
  split.
  - intros Hkey. unfold call_api. now rewrite Hkey.
  - intros Hkey body. split; [now apply call_api_sent|].
    split.
    { unfold call_api.
      destruct (String.eqb_spec GEMINI_API_KEY EmptyString) as [Heq | _]; [congruence|].
      destruct (urlopen _); reflexivity. }
    unfold body, payload. destruct (truthy prev); repeat split.
Qed.

(** X12.  A response without function calls ends the turn: no tool runs,
    nothing is sent, the world is as before.  And a response that
    [handle_outputs] rejects is rejected before any tool runs. *)
Theorem agent_step_without_calls (fuel : nat) (prompt : string)
    (i : list (string * value)) (prev : value) (w : world) :
  (forall outs,
      default (PList []) (lookup i "outputs") = PList outs ->
      Forall (fun o => well_formed_output o = true) outs ->
      List.filter is_function_call outs = [] ->
      agent_step fuel prompt (PDict i) prev w = (Return None, w))
  /\
  (forall e,
      handle_outputs (default (PList []) (lookup i "outputs")) = Raise e ->
      agent_step fuel prompt (PDict i) prev w = (Raise e, w)).
Proof.
  split.
  - intros outs Houts Hwf Hnone.
    unfold agent_step, bind, lift. rewrite get_default, Houts.
    unfold handle_outputs. cbn [iterate]. rewrite handle_outputs_calls by exact Hwf.
    rewrite Hnone. reflexivity.
  - intros e He. unfold agent_step, bind, lift. rewrite get_default, He. reflexivity.
Qed.

End Requests.

Lemma call_api_request_witness :
  sent (snd (call_api (H := Sample.sample_host) 3 (PStr "hello") "cwd: /work" PNone
               (one_file "f.txt" text_once)))
  = [PDict (payload (H := Sample.sample_host) 3 (PStr "hello") "cwd: /work" PNone)]
  /\ lookup (payload (H := Sample.sample_host) 3 (PStr "hello") "cwd: /work" PNone)
       "previous_interaction_id" = None.
Proof.
  destruct (proj2 (call_api_request (H := Sample.sample_host) 3 (PStr "hello")
                     "cwd: /work" PNone (one_file "f.txt" text_once))
              ltac:(discriminate))
    as (Hsent & _ & _ & _ & _ & _ & Hprev).
  split; [exact Hsent | exact Hprev].
Defined.

Lemma agent_step_without_calls_witness :
  agent_step (H := Sample.sample_host) 3 "cwd: /work"
    (PDict [("id", PStr "i2"); ("outputs", PList [])]) (PStr "i1")
    (one_file "f.txt" text_once)
  = (Return None, one_file "f.txt" text_once).
Proof.
  exact (proj1 (agent_step_without_calls (H := Sample.sample_host) 3 "cwd: /work"
                  [("id", PStr "i2"); ("outputs", PList [])] (PStr "i1")
                  (one_file "f.txt" text_once))
           [] eq_refl (List.Forall_nil _) eq_refl).
Defined.

(** ** The prompt loop *)

Section Prompt.
Context {H : host}.

Lemma sent_grows_refl (w : world) : sent_grows w w.
Proof. exists []. now rewrite app_nil_r. Qed.

Lemma sent_grows_trans (w1 w2 w3 : world) :
  sent_grows w1 w2 -> sent_grows w2 w3 -> sent_grows w1 w3.
Proof.
  intros [m1 H1] [m2 H2]. exists (m1 ++ m2). now rewrite H2, H1, app_assoc.
Qed.

Lemma sent_grows_same (w w' : world) : sent w' = sent w -> sent_grows w w'.
Proof. intros Hs. exists []. now rewrite app_nil_r. Qed.

Lemma call_api_grows (fuel : nat) (input_data : value) (prompt : string) (prev : value)
    (w : world) :
  sent_grows w (snd (call_api fuel input_data prompt prev w)).
Proof.
  destruct (String.eqb_spec GEMINI_API_KEY EmptyString) as [Hkey | Hkey].
  - unfold call_api. apply String.eqb_eq in Hkey. rewrite Hkey. apply sent_grows_refl.
  - eexists. now apply call_api_sent.
Qed.

Lemma agent_step_grows (fuel : nat) (prompt : string) (interaction prev : value)
    (w : world) :
  sent_grows w (snd (agent_step fuel prompt interaction prev w)).
Proof.
  unfold agent_step, bind, lift.
  destruct (get interaction "outputs" (PList [])) as [outputs | e |];
    try apply sent_grows_refl.
  destruct (handle_outputs outputs) as [[|c calls] | e |]; try apply sent_grows_refl.
  pose proof (keeps_run_calls fuel (c :: calls) [] w) as Hk.
  destruct (run_calls (run_tool fuel) [] (c :: calls) w) as [[results | e |] w1];
    cbn [snd] in *; try (now apply sent_grows_same).
  apply (sent_grows_trans w w1); [now apply sent_grows_same|].
  pose proof (call_api_grows fuel (PList results) prompt prev w1) as Hc.
  destruct (call_api fuel (PList results) prompt prev w1) as [[i' | e |] w2];
    cbn [snd] in *; try exact Hc.
  destruct (get i' "id" prev); exact Hc.
Qed.

Lemma turn_rounds_grows (rounds fuel : nat) (interaction prev : value) (w : world) :
  sent_grows w (snd (turn_rounds rounds fuel interaction prev w)).
Proof.
  revert interaction prev w; induction rounds as [|rounds IH]; intros interaction prev w;
    cbn [turn_rounds]; [apply sent_grows_refl|].
  pose proof (agent_step_grows fuel system_prompt interaction prev w) as Hs.
  destruct (agent_step fuel system_prompt interaction prev w)
    as [[[[i' id']|] | e |] w']; cbn [snd] in *; try exact Hs.
  eapply sent_grows_trans; [exact Hs | apply IH].
Qed.

Lemma turn_grows_from (rounds fuel : nat) (user_input : string) (prev : value)
    (w : world) :
  sent_grows (snd (call_api fuel (PStr user_input) system_prompt prev w))
             (snd (turn rounds fuel user_input prev w)).
Proof.
  unfold turn.
  destruct (call_api fuel (PStr user_input) system_prompt prev w) as [[i | e |] w1];
    cbn [snd]; try apply sent_grows_refl.
  destruct (get i "id" prev); cbn [snd]; try apply sent_grows_refl.
  apply turn_rounds_grows.
Qed.

Lemma main_loop_grows (rounds fuel : nat) (inputs : list string) (prev : value)
    (w : world) :
  sent_grows w (snd (main_loop rounds fuel inputs prev w)).
Proof.
  revert prev w; induction inputs as [|line inputs IH]; intros prev w; cbn [main_loop];
    [apply sent_grows_refl|].
  destruct (String.eqb (strip line) EmptyString); [apply IH|].
  destruct (_ || _); [apply sent_grows_refl|].
  destruct (String.eqb (strip line) "/c"); [apply IH|].
  assert (Ht : sent_grows w (snd (turn rounds fuel (strip line) prev w))).
  { eapply sent_grows_trans; [apply call_api_grows | apply turn_grows_from]. }
  destruct (turn rounds fuel (strip line) prev w) as [[[[] | e |] id'] w'];
    cbn [snd] in *; try exact Ht.
  - eapply sent_grows_trans; [exact Ht | apply IH].
  - destruct (issubclass (exn_cls e) KeyboardInterrupt); [exact Ht|].
    destruct (issubclass (exn_cls e) Exception_); [|exact Ht].
    eapply sent_grows_trans; [exact Ht | apply IH].
Qed.

Lemma agent_step_text_only (fuel : nat) (prompt : string)
    (i : list (string * value)) (prev : value) (w : world) (outs : list value) :
  default (PList []) (lookup i "outputs") = PList outs ->
  Forall (fun o => well_formed_output o = true) outs ->
  List.filter is_function_call outs = [] ->
  agent_step fuel prompt (PDict i) prev w = (Return None, w).
Proof.
  intros Houts Hwf Hnone.
  unfold agent_step, bind, lift. rewrite get_default, Houts.
  unfold handle_outputs. cbn [iterate]. rewrite handle_outputs_calls by exact Hwf.
  rewrite Hnone. reflexivity.
Qed.

(** X13.  A turn that the service answers with text only: one request is sent,
    with the user's text as input, no tool runs, and the continuation
    token becomes the id of the response (it stays as it was when the
    response has none). *)
Theorem turn_answered_with_text (rounds fuel : nat) (user_input body : string)
    (prev : value) (i : list (string * value)) (outs : list value) (w : world) :
  GEMINI_API_KEY <> EmptyString ->
  urlopen (sent w ++ [PDict (payload fuel (PStr user_input) system_prompt prev)])
  = Return body ->
  json_loads body = Return (PDict i) ->
  default (PList []) (lookup i "outputs") = PList outs ->
  Forall (fun o => well_formed_output o = true) outs ->
  List.filter is_function_call outs = [] ->
  turn (S rounds) fuel user_input prev w
  = (Return tt, default prev (lookup i "id"),
     mk_world (fs w) (now w)
       (sent w ++ [PDict (payload fuel (PStr user_input) system_prompt prev)])).
Proof.
  intros Hkey Hurl Hjson Houts Hwf Hnone.
  unfold turn, call_api.
  destruct (String.eqb_spec GEMINI_API_KEY EmptyString) as [Heq | _]; [congruence|].
  rewrite Hurl, Hjson, get_default. cbn [turn_rounds].
  rewrite (agent_step_text_only fuel system_prompt i _ _ outs Houts Hwf Hnone).
  reflexivity.
Qed.

(** X15.  The loop is left by an exception only if the exception is neither
    an [Exception] nor a [KeyboardInterrupt]: a turn that fails with an
    [Exception] is given up and the next line is read, and an interrupt
    ends the loop without an exception. *)
Theorem main_loop_only_raises_outside_exception (rounds fuel : nat)
    (inputs : list string) (prev : value) (w w' : world) (e : exn) :
  main_loop rounds fuel inputs prev w = (Raise e, w') ->
  issubclass (exn_cls e) Exception_ = false
  /\ issubclass (exn_cls e) KeyboardInterrupt = false.
Proof.
  revert prev w; induction inputs as [|line inputs IH]; intros prev w; cbn [main_loop];
    [discriminate|].
  destruct (String.eqb (strip line) EmptyString); [apply IH|].
  destruct (_ || _); [discriminate|].
  destruct (String.eqb (strip line) "/c"); [apply IH|].
  destruct (turn rounds fuel (strip line) prev w) as [[[[] | e' |] id'] w1].
  - apply IH.
  - destruct (issubclass (exn_cls e') KeyboardInterrupt) eqn:Hk; [discriminate|].
    destruct (issubclass (exn_cls e') Exception_) eqn:He; [apply IH|].
    intros [= <- _]. now split.
  - discriminate.
Qed.

(** X14.  After [/c] the token is gone: the request of the next prompt carries
    no continuation token, whatever the token was, and it is the first
    request sent from then on. *)
Theorem clear_command_drops_token (rounds fuel : nat) (line : string)
    (inputs : list string) (prev : value) (w : world) :
  GEMINI_API_KEY <> EmptyString ->
  is_prompt (strip line) = true ->
  let body := payload fuel (PStr (strip line)) system_prompt PNone in
  lookup body "previous_interaction_id" = None
  /\ lookup body "input" = Some (PStr (strip line))
  /\ exists more,
       sent (snd (main_loop rounds fuel ("/c" :: line :: inputs) prev w))
       = sent w ++ PDict body :: more.
Proof.
  intros Hkey Hprompt body. split; [reflexivity|]. split; [reflexivity|].
  unfold is_prompt in Hprompt.
  apply andb_true_iff in Hprompt as [Hprompt Hc].
  apply andb_true_iff in Hprompt as [Hprompt Hexit].
  apply andb_true_iff in Hprompt as [Hblank Hq].
  apply negb_true_iff in Hblank, Hq, Hexit, Hc.
  change (main_loop rounds fuel ("/c" :: line :: inputs) prev w)
    with (main_loop rounds fuel (line :: inputs) PNone w).
  cbn [main_loop]. rewrite Hblank, Hq, Hexit, Hc. cbn [orb].
  pose proof (call_api_sent fuel (PStr (strip line)) system_prompt PNone w Hkey) as Hsend.
  pose proof (turn_grows_from rounds fuel (strip line) PNone w) as Hturn.
  assert (Hall : forall w1,
             sent_grows (snd (turn rounds fuel (strip line) PNone w)) w1 ->
             exists more, sent w1 = sent w ++ PDict body :: more).
  { intros w1 Hw1.
    destruct (sent_grows_trans _ _ _ Hturn Hw1) as [more Hmore].
    exists more. rewrite Hmore, Hsend. now rewrite <- app_assoc. }
  destruct (turn rounds fuel (strip line) PNone w) as [[[[] | e |] id'] w1];
    cbn [snd] in *.
  - apply Hall, main_loop_grows.
  - destruct (issubclass (exn_cls e) KeyboardInterrupt); [apply Hall, sent_grows_refl|].
    destruct (issubclass (exn_cls e) Exception_);
      [apply Hall, main_loop_grows | apply Hall, sent_grows_refl].
  - apply Hall, sent_grows_refl.
Qed.

End Prompt.

(** ** [read], line by line *)

Section ReadWindow.
Context {H : host}.

(** X3.  From an offset and with a limit that are not negative, the output of
    [read] is made of one piece per selected line: there are as many
    pieces as lines from [offset] on, [limit] at most, and the piece for
    line [offset + k] of the file (counting from 0) is its position
    counted from 1, in four characters at least, then [| ] and the
    line. *)
Theorem read_window (w : world) (d : list (string * value)) (path : string)
    (f : file) (offset limit : nat) :
  lookup d "path" = Some (PStr path) ->
  fs w !! path = Some (File f) ->
  f_readable f = true -> f_text f = true ->
  let lines := readlines (universal_newlines (f_data f)) in
  default (PInt 0) (lookup d "offset") = PInt (Z.of_nat offset) ->
  default (PInt (Z.of_nat (length lines))) (lookup d "limit") = PInt (Z.of_nat limit) ->
  exists pieces,
    read (PDict d) w = (Return (join EmptyString pieces), w)
    /\ length pieces = Nat.min limit (length lines - offset)
    /\ forall k line,
         k < limit -> lines !! (offset + k) = Some line ->
         pieces !! k = Some (fmt4 (Z.of_nat (offset + k) + 1) +:+ "| " +:+ line).
Proof.
  intros Hpath Hfile Hr Ht lines Hoff Hlim.
  eexists. split; [exact (read_numbered w d path f offset limit Hpath Hfile Hr Ht Hoff Hlim)|].
  fold lines. split.
  - now rewrite length_imap, length_take, length_drop.
  - intros k line Hk Hline. rewrite list_lookup_imap.
    rewrite lookup_take, lookup_drop, Hline.
    destruct (decide (k < limit)); [reflexivity | contradiction].
Qed.

End ReadWindow.

Lemma read_window_witness :
  exists pieces,
    read (H := Sample.sample_host)
      (PDict [("path", PStr "f.txt"); ("offset", PInt 1); ("limit", PInt 1)])
      (one_file "f.txt" three_lines)
    = (Return (join EmptyString pieces), one_file "f.txt" three_lines)
    /\ length pieces = 1.
Proof.
  destruct (read_window (H := Sample.sample_host) (one_file "f.txt" three_lines)
              [("path", PStr "f.txt"); ("offset", PInt 1); ("limit", PInt 1)]
              "f.txt" (mk_file three_lines 0 true true true) 1 1
              eq_refl eq_refl eq_refl eq_refl eq_refl eq_refl)
    as (pieces & Hrun & Hlen & _).
  exists pieces. split; [exact Hrun | exact Hlen].
Defined.

(** * [make_schema] *)

Lemma rstrip_char_end (c : ascii) (s : string) :
  endswith_char (rstrip_char c s) c = false.
Proof.
  induction s as [|x s IH]; [reflexivity|].
  cbn [rstrip_char]. destruct (rstrip_char c s) as [|y r].
  - destruct (Ascii.eqb x c) eqn:Hx; [reflexivity|]. cbn. exact Hx.
  - exact IH.
Qed.

Section SchemaFacts.
Context {H : host}.

(** X10.  The schema entry of a tool bears its name and description; a
    parameter is listed as required exactly when its declared type has no
    trailing question mark, and the list is left out when it would be
    empty; every parameter is advertised with its declared type without
    the question marks, [number] as [integer]. *)
Theorem schema_entry (name description : string) (params : list (string * string))
    (fn : value -> M string) :
  let entry := param_schema (name, (description, params, fn)) in
  field "name" PNone entry = PStr name
  /\ field "description" PNone entry = PStr description
  /\ (forall p,
         In (PStr p) (schema_required entry)
         <-> exists t, In (p, t) params /\ endswith_char t "?" = false)
  /\ (has_required entry = false
      <-> forall p t, In (p, t) params -> endswith_char t "?" = true)
  /\ (forall p t,
         In (p, t) params ->
         exists advertised,
           In (p, PDict [("type", PStr advertised)]) (schema_properties entry)
           /\ endswith_char advertised "?" = false
           /\ advertised = (if String.eqb (rstrip_char "?" t) "number"
                            then "integer" else rstrip_char "?" t)).
Proof.
  intros entry. split; [reflexivity|]. split; [reflexivity|].
  set (required := omap (fun '(param_name, param_type) =>
                           if endswith_char param_type "?" then None
                           else Some (PStr param_name)) params).
  assert (Hreq : forall p,
             In (PStr p) required
             <-> exists t, In (p, t) params /\ endswith_char t "?" = false).
  { intros p. unfold required. rewrite <- list_elem_of_In, list_elem_of_omap. split.
    - intros ([p' t] & Hin & Hsome). apply list_elem_of_In in Hin.
      destruct (endswith_char t "?") eqn:Ht; [discriminate|].
      injection Hsome as ->. eauto.
    - intros (t & Hin & Ht). exists (p, t). rewrite list_elem_of_In.
      split; [exact Hin | now rewrite Ht]. }
  assert (Hshape : (schema_required entry = required)
                   /\ (has_required entry = false <-> required = [])).
  { unfold entry, schema_required, has_required, param_schema. fold required.
    destruct required as [|r rs]; cbn; split; try reflexivity; split; congruence. }
  destruct Hshape as [Hlist Hnone].
  split; [intros p; rewrite Hlist; apply Hreq|].
  split.
  - rewrite Hnone. split.
    + intros Hnil p t Hin. destruct (endswith_char t "?") eqn:Ht; [reflexivity|].
      assert (Hp : In (PStr p) required) by (apply Hreq; eauto).
      rewrite Hnil in Hp. destruct Hp.
    + intros Hall. destruct required as [|r rs] eqn:Hr; [reflexivity|].
      assert (Hin : In r required) by (rewrite Hr; now left).
      unfold required in Hin.
      apply list_elem_of_In, list_elem_of_omap in Hin as ([p t] & Hin & Hsome).
      apply list_elem_of_In in Hin. rewrite (Hall p t Hin) in Hsome. discriminate.
  - intros p t Hin. eexists. split; [|split; [|reflexivity]].
    + assert (Hprops :
               schema_properties entry
               = map (fun '(param_name, param_type) =>
                        (param_name,
                         PDict [("type",
                                 PStr (if String.eqb (rstrip_char "?" param_type) "number"
                                       then "integer" else rstrip_char "?" param_type))]))
                     params).
      { unfold entry, schema_properties, param_schema. fold required.
        destruct required; reflexivity. }
      rewrite Hprops.
      apply (in_map (fun '(param_name, param_type) =>
                       (param_name,
                        PDict [("type",
                                PStr (if String.eqb (rstrip_char "?" param_type) "number"
                                      then "integer" else rstrip_char "?" param_type))]))
               params (p, t) Hin).
    + destruct (String.eqb _ _); [reflexivity | apply rstrip_char_end].
Qed.

(** [make_schema] has one entry per tool of the table, in the order of
    the table, under the name of the tool. *)
Theorem make_schema_names (fuel : nat) :
  exists entries,
    make_schema fuel = PList entries
    /\ map (field "name" PNone) entries = map (fun t => PStr (fst t)) (TOOLS fuel)
    /\ map (field "name" PNone) entries
       = [PStr "read"; PStr "write"; PStr "edit"; PStr "glob"; PStr "grep"; PStr "bash"].
Proof. eexists. split; [reflexivity|]. split; reflexivity. Qed.

End SchemaFacts.

Lemma schema_entry_witness :
  In (PStr "path")
     (schema_required
        (param_schema
           ("read",
            ("Read file",
             [("path", "string"); ("offset", "number?"); ("limit", "number?")],
             read (H := Sample.sample_host))))).
Proof.
  apply (proj1 (proj2 (proj2 (schema_entry "read" "Read file"
                                [("path", "string"); ("offset", "number?");
                                 ("limit", "number?")]
                                (read (H := Sample.sample_host)))))).
  exists "string". split; [now left | reflexivity].
Defined.

(** * [load_dotenv] *)

Lemma setdefault_keeps (env : gmap string string) (key value k v : string) :
  env !! k = Some v -> snd (setdefault env key value) !! k = Some v.
Proof.
  intros Hk. unfold setdefault. destruct (env !! key) eqn:Hkey; [exact Hk|].
  destruct (_ || _); [exact Hk|]. cbn [snd].
  rewrite lookup_insert_ne; [exact Hk | congruence].
Qed.

Lemma load_lines_keeps (lines : list string) (env : gmap string string) (k v : string) :
  env !! k = Some v -> snd (load_lines lines env) !! k = Some v.
Proof.
  revert env; induction lines as [|line lines IH]; intros env Hk; cbn [load_lines];
    [exact Hk|].
  destruct (parse_line line) as [[key value]|]; [|now apply IH].
  pose proof (setdefault_keeps env key value k v Hk) as Hs.
  destruct (setdefault env key value) as [[[] | e |] env']; cbn [snd] in *;
    [now apply IH | exact Hs | exact Hs].
Qed.

Lemma has_char_before_first (c : ascii) (s : string) :
  has_char c (before_first c s) = false.
Proof.
  induction s as [|x s IH]; [reflexivity|].
  cbn [before_first]. destruct (Ascii.eqb x c) eqn:Hx; [reflexivity|].
  cbn [has_char]. now rewrite Hx, IH.
Qed.

Lemma has_char_lstrip (c : ascii) (s : string) :
  has_char c (lstrip s) = true -> has_char c s = true.
Proof.
  induction s as [|x s IH]; [discriminate|]. cbn [lstrip].
  destruct (isspace x); [|auto]. intros Hc. cbn [has_char]. rewrite (IH Hc).
  apply orb_true_r.
Qed.

Lemma has_char_rstrip (c : ascii) (s : string) :
  has_char c (rstrip s) = true -> has_char c s = true.
Proof.
  induction s as [|x s IH]; [discriminate|]. cbn [rstrip has_char].
  destruct (rstrip s) as [|y r].
  - destruct (isspace x); [discriminate|]. cbn [has_char]. rewrite orb_false_r.
    intros ->. reflexivity.
  - cbn [has_char] in *. intros Hc. apply orb_true_iff in Hc as [-> | Hc];
      [reflexivity|]. rewrite (IH Hc). apply orb_true_r.
Qed.

Lemma has_char_strip (c : ascii) (s : string) :
  has_char c s = false -> has_char c (strip s) = false.
Proof.
  intros Hs. unfold strip. destruct (has_char c (lstrip (rstrip s))) eqn:Hc;
    [|reflexivity].
  apply has_char_lstrip, has_char_rstrip in Hc. congruence.
Qed.

(** The name [parse_line] gives is never empty and holds no equals
    sign. *)
Lemma parse_line_key (line key value : string) :
  parse_line line = Some (key, value) ->
  key <> EmptyString /\ has_char "=" key = false.
Proof.
  unfold parse_line.
  destruct (String.eqb (strip line) EmptyString || startswith (strip line) "#");
    [discriminate|].
  set (stripped := if startswith (strip line) "export " then _ else _).
  destruct (negb (has_char "=" stripped)); [discriminate|].
  destruct (String.eqb_spec (strip (before_first "=" stripped)) EmptyString) as [|Hkey];
    [discriminate|].
  intros [= <- _]. split; [exact Hkey|].
  apply has_char_strip, has_char_before_first.
Qed.

(** X20.  [load_dotenv] never changes a variable that is set: what the
    environment holds before, it holds after, whatever the files say and
    however the loading ends. *)
Theorem load_dotenv_keeps (paths : list string) (w : world)
    (env : gmap string string) (k v : string) :
  env !! k = Some v -> snd (load_dotenv paths w env) !! k = Some v.
Proof.
  revert env; induction paths as [|path paths IH]; intros env Hk; cbn [load_dotenv];
    [exact Hk|].
  destruct (_ || _); [now apply IH|].
  destruct (iter_lines path w) as [lines ending].
  pose proof (load_lines_keeps lines env k v Hk) as Hl.
  destruct (load_lines lines env) as [[[] | e |] env']; cbn [snd] in Hl;
    cbv beta iota zeta.
  - destruct ending as [[] | e |]; [now apply IH | | exact Hl].
    destruct (issubclass _ _); [now apply IH | exact Hl].
  - destruct (issubclass _ _); [now apply IH | exact Hl].
  - exact Hl.
Qed.

(** X21.  [load_dotenv] comes back, and no [OSError] leaves it: paths that are
    empty, missing, directories or unreadable are passed over.  What can
    leave it is a [ValueError]: a file that does not decode, or a null
    character in a name or value. *)
Theorem load_dotenv_outcome (paths : list string) (w : world)
    (env : gmap string string) :
  match fst (load_dotenv paths w env) with
  | Return _ => True
  | Raise e =>
      issubclass (exn_cls e) ValueError = true
      /\ issubclass (exn_cls e) OSError = false
  | Hang => False
  end.
Proof.
  revert env; induction paths as [|path paths IH]; intros env; cbn [load_dotenv];
    [exact I|].
  destruct (_ || _); [apply IH|].
  assert (He : match snd (iter_lines path w) with
               | Return _ => True
               | Raise e =>
                   issubclass (exn_cls e) OSError = true
                   \/ (issubclass (exn_cls e) ValueError = true
                       /\ issubclass (exn_cls e) OSError = false)
               | Hang => False
               end).
  { unfold iter_lines. destruct (fs w !! path) as [[f|]|]; try (now left).
    destruct (f_readable f); [|now left].
    destruct (f_text f); cbn [negb snd]; [exact I | now right]. }
  assert (Hl : forall lines env0,
             match fst (load_lines lines env0) with
             | Return _ => True
             | Raise e =>
                 issubclass (exn_cls e) ValueError = true
                 /\ issubclass (exn_cls e) OSError = false
             | Hang => False
             end).
  { induction lines as [|line lines IHl]; intros env0; cbn [load_lines]; [exact I|].
    destruct (parse_line line) as [[key value]|]; [|apply IHl].
    unfold setdefault. destruct (env0 !! key); [apply IHl|].
    destruct (_ || _); [now split | apply IHl]. }
  destruct (iter_lines path w) as [lines ending]. cbn [snd] in He.
  specialize (Hl lines env).
  destruct (load_lines lines env) as [[[] | e |] env']; cbn [fst] in Hl;
    cbv beta iota zeta.
  - destruct ending as [[] | e |]; [apply IH | | contradiction].
    destruct He as [-> | [Hv Ho]]; [apply IH|]. rewrite Ho. now split.
  - destruct Hl as [Hv Ho]. rewrite Ho. now split.
  - contradiction.
Qed.

(** X22.  Every variable [load_dotenv] adds has a name that is not empty and
    holds no equals sign. *)
Theorem load_dotenv_names (paths : list string) (w : world)
    (env : gmap string string) (k : string) :
  env !! k = None ->
  snd (load_dotenv paths w env) !! k <> None ->
  k <> EmptyString /\ has_char "=" k = false.
Proof.
  assert (Hl : forall lines env0,
             env0 !! k = None -> snd (load_lines lines env0) !! k <> None ->
             k <> EmptyString /\ has_char "=" k = false).
  { induction lines as [|line lines IHl]; intros env0 Hnone; cbn [load_lines];
      [cbn [snd]; intros Hk; contradiction|].
    destruct (parse_line line) as [[key value]|] eqn:Hparse; [|now apply IHl].
    unfold setdefault. destruct (env0 !! key) eqn:Hkey; [now apply IHl|].
    destruct (_ || _); [cbn [snd]; intros Hk; contradiction|].
    cbn [load_lines]. destruct (String.eqb_spec key k) as [<- | Hne].
    - intros _. exact (parse_line_key _ _ _ Hparse).
    - apply IHl. now rewrite lookup_insert_ne. }
  revert env; induction paths as [|path paths IH]; intros env Hnone; cbn [load_dotenv];
    [cbn [snd]; intros Hk; contradiction|].
  destruct (_ || _); [now apply IH|].
  destruct (iter_lines path w) as [lines ending].
  destruct (snd (load_lines lines env) !! k) as [v|] eqn:Hk.
  { intros _. apply (Hl lines env Hnone). congruence. }
  destruct (load_lines lines env) as [[[] | e |] env']; cbn [snd] in Hk;
    cbv beta iota zeta.
  - destruct ending as [[] | e |];
      [now apply IH | | cbn [snd]; intros Hk'; contradiction].
    destruct (issubclass _ _); [now apply IH | cbn [snd]; intros Hk'; contradiction].
  - destruct (issubclass _ _); [now apply IH | cbn [snd]; intros Hk'; contradiction].
  - cbn [snd]. intros Hk'; contradiction.
Qed.

Lemma load_dotenv_keeps_witness :
  snd (load_dotenv [".env"; "missing/.env"] dotenv_world env0)
  !! "MODEL" = Some "m1".
Proof.
  exact (load_dotenv_keeps [".env"; "missing/.env"]
           dotenv_world env0 "MODEL" "m1" eq_refl).
Defined.

Lemma load_dotenv_names_witness :
  snd (load_dotenv [".env"] dotenv_world env0)
  !! "GEMINI_API_KEY" = Some "k#1"
  /\ has_char "=" "GEMINI_API_KEY" = false.
Proof.
  split; [vm_compute; reflexivity|].
  apply (load_dotenv_names [".env"] dotenv_world env0
           "GEMINI_API_KEY" eq_refl).
  vm_compute. discriminate.
Defined.

(** ** A plain line of an environment file *)











(** ** Witnesses of the loop's properties *)

Lemma turn_answered_with_text_witness :
  turn (H := Sample.sample_host) 1 5 "hi" PNone (one_file "f.txt" "x")
  = (Return tt, PStr "i2",
     mk_world (fs (one_file "f.txt" "x")) 0
       [PDict (payload (H := Sample.sample_host) 5 (PStr "hi")
                 (system_prompt (H := Sample.sample_host)) PNone)]).
Proof.
  exact (turn_answered_with_text (H := Sample.sample_host) 0 5 "hi" Sample.final_answer
           PNone [("id", PStr "i2"); ("outputs", PList [])] [] (one_file "f.txt" "x")
           ltac:(discriminate) eq_refl ltac:(vm_compute; reflexivity) eq_refl
           (List.Forall_nil _) eq_refl).
Defined.

Lemma clear_command_drops_token_witness :
  exists more,
    sent (snd (main_loop (H := Sample.sample_host) 1 5 ["/c"; " hi" +:+ nl] (PStr "old")
                 (one_file "f.txt" "x")))
    = PDict (payload (H := Sample.sample_host) 5 (PStr "hi")
               (system_prompt (H := Sample.sample_host)) PNone) :: more.
Proof.
  exact (proj2 (proj2 (clear_command_drops_token (H := Sample.sample_host) 1 5
                         (" hi" +:+ nl) [] (PStr "old") (one_file "f.txt" "x")
                         ltac:(discriminate) eq_refl))).
Defined.

Lemma main_loop_only_raises_outside_exception_witness :
  fst (main_loop (H := Stopping.stopped_host) 1 5 ["hi"] PNone (one_file "f.txt" "x"))
  = Raise (mk_exn BaseException "stop")
  /\ issubclass BaseException Exception_ = false.
Proof.
  split; [vm_compute; reflexivity|].
  refine (proj1 _).
  apply (main_loop_only_raises_outside_exception (H := Stopping.stopped_host) 1 5 ["hi"]
           PNone (one_file "f.txt" "x")
           (mk_world (fs (one_file "f.txt" "x")) 0
              [PDict (payload (H := Stopping.stopped_host) 5 (PStr "hi")
                        (system_prompt (H := Stopping.stopped_host)) PNone)])
           (mk_exn BaseException "stop")).
  vm_compute. reflexivity.
Defined.

(** ** The preview of a result *)

Lemma line_feeds_has_char (s : string) :
  line_feeds s = 0 <-> has_char LF s = false.
Proof.
  induction s as [|c s IH]; [easy|].
  cbn [line_feeds has_char]. destruct (Ascii.eqb c LF); cbn [orb]; [split; [lia|discriminate]|].
  exact IH.
Qed.

Lemma before_first_absent (c : ascii) (s : string) :
  has_char c s = false -> before_first c s = s.
Proof.
  induction s as [|x s IH]; [reflexivity|].
  cbn [has_char before_first]. intros Hs. apply orb_false_iff in Hs as [-> Hs].
  now rewrite IH.
Qed.

Lemma before_first_prefix (c : ascii) (s : string) :
  exists rest, s = before_first c s +:+ rest.
Proof.
  induction s as [|x s [rest IH]]; [now exists EmptyString|].
  cbn [before_first]. destruct (Ascii.eqb x c).
  - exists (String x s). now rewrite sapp_nil_l.
  - exists rest. rewrite sapp_cons. now rewrite <- IH.
Qed.

Lemma stake_prefix (n : nat) (s : string) : exists rest, s = stake n s +:+ rest.
Proof.
  revert s; induction n as [|n IH]; intros s.
  - exists s. cbn [stake]. now rewrite sapp_nil_l.
  - destruct s as [|c s]; [now exists EmptyString|].
    destruct (IH s) as [rest Hrest]. exists rest.
    cbn [stake]. rewrite sapp_cons. now rewrite <- Hrest.
Qed.

Lemma stake_length (n : nat) (s : string) : String.length (stake n s) <= n.
Proof.
  revert s; induction n as [|n IH]; intros s; [reflexivity|].
  destruct s as [|c s]; cbn [stake String.length]; [lia|]. specialize (IH s). lia.
Qed.

Lemma stake_all (n : nat) (s : string) : String.length s <= n -> stake n s = s.
Proof.
  revert s; induction n as [|n IH]; intros s Hs.
  - destruct s; [reflexivity | cbn in Hs; lia].
  - destruct s as [|c s]; [reflexivity|]. cbn [stake]. rewrite IH; [reflexivity|].
    cbn in Hs. lia.
Qed.

Lemma line_feeds_stake (n : nat) (s : string) :
  line_feeds s = 0 -> line_feeds (stake n s) = 0.
Proof.
  revert s; induction n as [|n IH]; intros s Hs; [reflexivity|].
  destruct s as [|c s]; [reflexivity|]. cbn [stake line_feeds] in *.
  destruct (Ascii.eqb c LF); [lia|]. now apply IH.
Qed.

Lemma line_feeds_before_first (s : string) : line_feeds (before_first LF s) = 0.
Proof. apply line_feeds_has_char, has_char_before_first. Qed.

(** X18.  A result of one line of at most 60 characters is shown as it is. *)
Theorem result_preview_whole (result : string) :
  has_char LF result = false -> String.length result <= 60 ->
  result_preview result = result.
Proof.
  intros Hlf Hlen. unfold result_preview.
  rewrite (before_first_absent _ _ Hlf), (proj2 (line_feeds_has_char result) Hlf).
  change (0 <? 0) with false. cbv iota. rewrite stake_all by exact Hlen.
  destruct (Nat.ltb_spec 60 (String.length result)); [lia | reflexivity].
Qed.

Lemma result_preview_whole_witness :
  result_preview "error: old_string not found" = "error: old_string not found".
Proof.
  apply result_preview_whole; [reflexivity | cbn; lia].
Defined.

(** X19.  Whatever the result, its preview is one line: at most 60 characters
    from the start of the result, none of them a line feed, then a mark
    without line feed, which is empty exactly when the result is one line
    of at most 60 characters, that is, when nothing is left out. *)
Theorem result_preview_one_line (result : string) :
  line_feeds (result_preview result) = 0
  /\ exists shown rest mark,
       result = shown +:+ rest
       /\ result_preview result = shown +:+ mark
       /\ String.length shown <= 60
       /\ (mark = EmptyString <-> rest = EmptyString).
Proof.
  assert (Hshown : line_feeds (stake 60 (before_first LF result)) = 0)
    by apply line_feeds_stake, line_feeds_before_first.
  split.
  - unfold result_preview.
    destruct (0 <? line_feeds result); [|destruct (60 <? _)];
      rewrite ?line_feeds_app, ?line_feeds_str_of_Z, Hshown; reflexivity.
  - destruct (before_first_prefix LF result) as [r1 Hr1].
    destruct (stake_prefix 60 (before_first LF result)) as [r2 Hr2].
    exists (stake 60 (before_first LF result)), (r2 +:+ r1).
    unfold result_preview.
    assert (Hres : result = stake 60 (before_first LF result) +:+ r2 +:+ r1).
    { rewrite <- sapp_assoc, <- Hr2. exact Hr1. }
    destruct (Nat.ltb_spec 0 (line_feeds result)) as [Hmore | Hnone].
    + eexists. split; [exact Hres|]. split; [reflexivity|].
      split; [apply stake_length|]. split; [discriminate|].
      intros Hrest. exfalso.
      rewrite Hres, Hrest, sapp_nil_r, Hshown in Hmore. lia.
    + assert (Hlf : has_char LF result = false)
        by (apply line_feeds_has_char; lia).
      rewrite (before_first_absent _ _ Hlf) in *.
      destruct (Nat.ltb_spec 60 (String.length result)) as [Hlong | Hshort].
      * exists "...". split; [exact Hres|]. split; [reflexivity|].
        split; [apply stake_length|]. split; [discriminate|].
        intros Hrest. exfalso.
        pose proof (stake_length 60 result) as Hlen.
        rewrite Hrest, sapp_nil_r in Hres. rewrite <- Hres in Hlen. lia.
      * exists EmptyString. split; [exact Hres|].
        split; [now rewrite sapp_nil_r|]. split; [apply stake_length|].
        split; [|reflexivity]. intros _.
        rewrite (stake_all 60 result Hshort) in Hres.
        apply (f_equal String.length) in Hres. rewrite slength_app in Hres.
        destruct (r2 +:+ r1); [reflexivity | cbn in Hres; lia].
Qed.

(** ** What only [write], [edit] and [bash] can do *)

Section Untouched.
Context {H : host}.

Lemma leaves_bind {A B} (c : M A) (k : A -> M B) :
  leaves_world c -> (forall a, leaves_world (k a)) -> leaves_world (bind c k).
Proof.
  intros Hc Hk w. unfold bind. specialize (Hc w).
  destruct (c w) as [[a | e |] w']; cbn in *; subst w'; [|reflexivity | reflexivity].
  apply Hk.
Qed.

Lemma leaves_lift {A} (o : outcome A) : leaves_world (lift o).
Proof. intros w. reflexivity. Qed.

Lemma leaves_ret {A} (a : A) : leaves_world (ret a).
Proof. intros w. reflexivity. Qed.

Lemma leaves_try_except {A} (body : M A) (cls : exn_class) (handler : exn -> M A) :
  leaves_world body -> (forall e, leaves_world (handler e)) ->
  leaves_world (try_except body cls handler).
Proof.
  intros Hb Hh w. unfold try_except. specialize (Hb w).
  destruct (body w) as [[a | e |] w']; cbn in *; subst w'; try reflexivity.
  destruct (issubclass _ _); [apply Hh | reflexivity].
Qed.

Lemma leaves_open_read (path : value) : leaves_world (open_read path).
Proof.
  intros w. unfold open_read. destruct path; try reflexivity.
  destruct (fs w !! s) as [[f|]|]; try reflexivity.
  destruct (f_readable f), (f_text f); reflexivity.
Qed.

Ltac untouched :=
  cbv beta zeta;
  lazymatch goal with
  | |- leaves_world (bind _ _) => apply leaves_bind; [|intros ?]
  | |- leaves_world (lift _) => apply leaves_lift
  | |- leaves_world (ret _) => apply leaves_ret
  | |- leaves_world (open_read _) => apply leaves_open_read
  | |- leaves_world (if ?b then _ else _) => destruct b
  | |- leaves_world (fun w => (_, w)) => intros ?; reflexivity
  end.

Lemma leaves_read (args : value) : leaves_world (read args).
Proof. unfold read. repeat untouched. Qed.

Lemma leaves_glob (args : value) : leaves_world (glob args).
Proof. unfold glob. repeat untouched. Qed.

Lemma leaves_grep (args : value) : leaves_world (grep args).
Proof.
  unfold grep. repeat untouched. intros w. now rewrite all_hits_matches.
Qed.

(** X9.  Only [write], [edit] and [bash] can change anything: a call of any
    other name, registered or not, and whatever its arguments and its
    result, leaves the files, the clock and the log of requests as they
    were. *)
Theorem run_tool_read_only (fuel : nat) (name : string) (args : value) (w : world) :
  name <> "write" -> name <> "edit" -> name <> "bash" ->
  snd (run_tool fuel name args w) = w.
Proof.
  intros Hwrite Hedit Hbash. revert w.
  change (leaves_world (run_tool fuel name args)).
  unfold run_tool, run_tool_in. apply leaves_try_except; [|intros e; apply leaves_ret].
  unfold TOOLS. cbn [find_tool].
  repeat (destruct (String.eqb _ name) eqn:Hname;
          [apply String.eqb_eq in Hname;
           first [ apply leaves_read | apply leaves_glob | apply leaves_grep
                 | congruence ]
          | clear Hname]).
  apply leaves_lift.
Qed.

End Untouched.

Lemma run_tool_read_only_witness :
  snd (run_tool (H := Sample.sample_host) 5 "grep" (PDict [("pat", PStr "b")]) tree) = tree.
Proof.
  apply (run_tool_read_only (H := Sample.sample_host)); discriminate.
Defined.

(** ** Without an API key *)

(** X16.  Without an API key [main] does nothing but read its input: every
    prompt fails before a request is made, the failure is reported and
    the next line is read, so that the loop comes back with the world as
    it was, whatever the lines are. *)
Theorem main_without_key {H : host} (rounds fuel : nat) (inputs : list string)
    (prev : value) (w : world) :
  GEMINI_API_KEY = EmptyString ->
  exists id, main_loop rounds fuel inputs prev w = (Return id, w)
             /\ (id = prev \/ id = PNone).
Proof.
  intros Hkey. revert prev; induction inputs as [|line inputs IH]; intros prev;
    cbn [main_loop]; [now exists prev; auto|].
  destruct (String.eqb (strip line) EmptyString); [apply IH|].
  destruct (_ || _); [now exists prev; auto|].
  destruct (String.eqb (strip line) "/c").
  { destruct (IH PNone) as (id & Hid & Hor). exists id. split; [exact Hid|].
    destruct Hor; auto. }
  unfold turn, call_api. rewrite Hkey. cbn. apply IH.
Qed.

Lemma main_without_key_witness :
  exists id,
    main (H := Keyless.keyless_host) 3 5 ["read f.txt"; ""; "/c"; "again"] tree
    = (Return id, tree)
    /\ (id = PNone \/ id = PNone).
Proof.
  exact (main_without_key (H := Keyless.keyless_host) 3 5
           ["read f.txt"; ""; "/c"; "again"] PNone tree eq_refl).
Defined.
